(** * EmbedEval dataset preparation: [scripts/download-hf-datasets.py]

    A shallow embedding of the five dataset adapters of the script
    (the built-in sample, STS-17, SQuAD, Quora and NFCorpus), of the
    JSON-Lines writer and of [main], together with the properties of
    the normalised [(queries, corpus)] batches they produce.

    Conventions of the embedding.
    - A Python [float] is an IEEE 754 binary64 value, [spec_float] with
      precision 53 and exponent bound 1024; [/] is [SFdiv].
    - A row yielded by [load_dataset] is a record whose fields carry the
      column type of the dataset and are optional: [None] is a key that
      is absent from the row, so that [item["k"]] may raise [KeyError].
    - Exceptions are values of [exn]; a computation that may raise
      returns a [result]; code that also touches the file system is a
      function of the files written so far ([io]).
    - The world outside the script (is the [datasets] package
      installed, what does the hub serve, which directories and files
      can be created) is a [World] the functions read. *)

From Stdlib Require Import ZArith Lia List Bool.
From Stdlib Require Import SpecFloat.
From stdpp Require Import base option list gmap strings pretty.

(** * The program *)

(** ** Python values *)

Module Py.

(** Binary64 floating point. *)
Definition prec : Z := 53.
Definition emax : Z := 1024.
Definition float : Type := spec_float.

Definition is_float (x : float) : bool := valid_binary prec emax x.

(** [x / y] on floats. *)
Definition truediv (x y : float) : float := SFdiv prec emax x y.
(** [x <= y] on floats. *)
Definition le (x y : float) : bool := SFleb x y.

(** The float literals of the script. *)
Definition f0_0 : float := S754_zero false.
Definition f1_0 : float := S754_finite false 4503599627370496 (-52).
Definition f5_0 : float := S754_finite false 5629499534213120 (-50).
Definition f0_7 : float := S754_finite false 6305039478318694 (-53).
Definition f0_8 : float := S754_finite false 7205759403792794 (-53).
Definition f0_9 : float := S754_finite false 8106479329266893 (-53).

(** The exceptions the script can meet. *)
Inductive exn : Type :=
| KeyError (key : string)
| IndexError
| OSError (path : string)
| LoadError (name : string).

Inductive result (A : Type) : Type :=
| Ok (a : A)
| Raise (e : exn).
Arguments Ok {A} a.
Arguments Raise {A} e.

(** Sequencing: the first exception raised ends the computation. *)
Global Instance result_ret : MRet result := fun A a => Ok a.
Global Instance result_bind : MBind result := fun A B k m =>
  match m with
  | Ok a => k a
  | Raise e => Raise e
  end.

(** [d[key]] on a row whose column [key] holds [field]. *)
Definition getitem {A} (key : string) (field : option A) : result A :=
  match field with
  | Some v => Ok v
  | None => Raise (KeyError key)
  end.

(** [l[i]] on a list. *)
Definition index {A} (l : list A) (i : nat) : result A :=
  match l !! i with
  | Some v => Ok v
  | None => Raise IndexError
  end.

(** [for i, x in enumerate(xs): body], counting from [i]; the loop
    state [s] stands for the local variables the body mutates. *)
Fixpoint for_enumerate {X St : Type} (body : nat -> X -> St -> result St)
    (i : nat) (xs : list X) (s : St) : result St :=
  match xs with
  | [] => Ok s
  | x :: xs' =>
      match body i x s with
      | Ok s' => for_enumerate body (S i) xs' s'
      | Raise e => Raise e
      end
  end.

End Py.
Import Py.

(** ** The normalised entities *)

(** The values found in the [metadata] of a Document. *)
Inductive scalar : Type :=
| SStr (s : string)
| SFloat (x : float)
| SBool (b : bool).

(** One line of [queries.jsonl]; [qid] is the key ["id"]. *)
Record Query : Type := {
  qid : string;
  query : string;
  relevantDocs : list string;
  relevanceScores : list float;
  tags : list string
}.

(** One line of [corpus.jsonl]; [did] is the key ["id"]. *)
Record Document : Type := {
  did : string;
  content : string;
  metadata : list (string * scalar)
}.

(** What an adapter hands to the writer. *)
Definition batch : Type := list Query * list Document.

(** ** STS-17 *)

Module STS17.
Record item : Type := {
  sentence1 : option string;
  sentence2 : option string;
  score : option float
}.
End STS17.

(** The body of the loop of [download_mteb_sts17]. *)
Definition sts17_body (i : nat) (item : STS17.item) (st : batch) : result batch :=
  let '(queries, corpus) := st in
  let query_id := "sts17-en-en-" +:+ pretty i in
  sentence1 ← getitem "sentence1" (STS17.sentence1 item);
  score ← getitem "score" (STS17.score item);
  let queries := queries ++ [ {| qid := query_id;
                                 query := sentence1;
                                 relevantDocs := ["sts17-doc-" +:+ pretty i];
                                 relevanceScores := [truediv score f5_0];
                                 tags := ["sts"; "en-en"] |} ] in
  sentence2 ← getitem "sentence2" (STS17.sentence2 item);
  score ← getitem "score" (STS17.score item);
  let corpus := corpus ++ [ {| did := "sts17-doc-" +:+ pretty i;
                               content := sentence2;
                               metadata := [("score", SFloat score)] |} ] in
  Ok (queries, corpus).

Definition sts17_loop (dataset : list STS17.item) : result batch :=
  for_enumerate sts17_body 0 dataset ([], []).

(** ** SQuAD *)

Module SQuAD.
Record item : Type := {
  context : option string;
  title : option string;
  question : option string
}.
End SQuAD.

(** Loop state: [queries], [corpus] and the table [seen_contexts]. *)
Definition squad_state : Type := list Query * list Document * gmap string string.

Definition squad_body (i : nat) (item : SQuAD.item) (st : squad_state)
    : result squad_state :=
  let '(queries, corpus, seen_contexts) := st in
  context ← getitem "context" (SQuAD.context item);
  '(doc_id, corpus, seen_contexts) ←
    match seen_contexts !! context with
    | None =>
        let doc_id := "squad-doc-" +:+ pretty (size seen_contexts) in
        let seen_contexts := <[context := doc_id]> seen_contexts in
        title ← getitem "title" (SQuAD.title item);
        Ok (doc_id,
            corpus ++ [ {| did := doc_id;
                           content := context;
                           metadata := [("title", SStr title)] |} ],
            seen_contexts)
    | Some doc_id => Ok (doc_id, corpus, seen_contexts)
    end;
  question ← getitem "question" (SQuAD.question item);
  Ok (queries ++ [ {| qid := "squad-q-" +:+ pretty i;
                      query := question;
                      relevantDocs := [doc_id];
                      relevanceScores := [f1_0];
                      tags := ["qa"; "squad"] |} ],
      corpus, seen_contexts).

Definition squad_loop (dataset : list SQuAD.item) : result batch :=
  '(queries, corpus, _) ← for_enumerate squad_body 0 dataset ([], [], ∅);
  Ok (queries, corpus).

(** ** Quora *)

Module Quora.
Record questions_t : Type := {
  id : option (list Z);
  text : option (list string)
}.
Record item : Type := {
  questions : option questions_t;
  is_duplicate : option bool
}.
End Quora.

Definition quora_state : Type := list Query * list Document * gmap string string.

(** The body of the inner loop over [[q1, q2]]. *)
Definition quora_add (st : list Document * gmap string string) (q : string)
    : list Document * gmap string string :=
  let '(corpus, seen_questions) := st in
  match seen_questions !! q with
  | None =>
      let q_id := "quora-q-" +:+ pretty (size seen_questions) in
      let seen_questions := <[q := q_id]> seen_questions in
      (corpus ++ [ {| did := q_id; content := q; metadata := [] |} ], seen_questions)
  | Some _ => (corpus, seen_questions)
  end.

Arguments quora_add : simpl never.

Definition quora_body (i : nat) (item : Quora.item) (st : quora_state)
    : result quora_state :=
  let '(queries, corpus, seen_questions) := st in
  questions ← getitem "questions" (Quora.questions item);
  text ← getitem "text" (Quora.text questions);
  q1 ← index text 0;
  questions ← getitem "questions" (Quora.questions item);
  text ← getitem "text" (Quora.text questions);
  q2 ← index text 1;
  is_duplicate ← getitem "is_duplicate" (Quora.is_duplicate item);
  let '(corpus, seen_questions) := foldl quora_add (corpus, seen_questions) [q1; q2] in
  if is_duplicate : bool then
    q1_id ← getitem q1 (seen_questions !! q1);
    q2_id ← getitem q2 (seen_questions !! q2);
    Ok (queries ++ [ {| qid := "quora-pair-" +:+ pretty i;
                        query := q1;
                        relevantDocs := [q2_id];
                        relevanceScores := [f1_0];
                        tags := ["duplicate"; "quora"] |} ],
        corpus, seen_questions)
  else
    Ok (queries, corpus, seen_questions).

Definition quora_loop (dataset : list Quora.item) : result batch :=
  '(queries, corpus, _) ← for_enumerate quora_body 0 dataset ([], [], ∅);
  Ok (queries, corpus).

(** ** NFCorpus *)

Module NFCorpus.
Record item : Type := {
  query : option string;
  corpus_id : option string;
  corpus_text : option string
}.
End NFCorpus.

Definition nfcorpus_state : Type := list Query * list Document * gmap string bool.

Definition nfcorpus_body (i : nat) (item : NFCorpus.item) (st : nfcorpus_state)
    : result nfcorpus_state :=
  let '(queries, corpus, seen_docs) := st in
  query ← getitem "query" (NFCorpus.query item);
  let relevant : list string := [] in
  let scores : list float := [] in
  let '(relevant, scores, corpus, seen_docs) :=
    match NFCorpus.corpus_id item with
    | Some corpus_id =>
        let doc_id := "nfcorpus-" +:+ corpus_id in
        let relevant := relevant ++ [doc_id] in
        let scores := scores ++ [f1_0] in
        match seen_docs !! doc_id with
        | None =>
            let seen_docs := <[doc_id := true]> seen_docs in
            (relevant, scores,
             corpus ++ [ {| did := doc_id;
                            content := default ("Document " +:+ doc_id)
                                               (NFCorpus.corpus_text item);
                            metadata := [("medical", SBool true)] |} ],
             seen_docs)
        | Some _ => (relevant, scores, corpus, seen_docs)
        end
    | None => (relevant, scores, corpus, seen_docs)
    end in
  match relevant with
  | _ :: _ =>
      Ok (queries ++ [ {| qid := "nfcorpus-q-" +:+ pretty i;
                          query := query;
                          relevantDocs := relevant;
                          relevanceScores := scores;
                          tags := ["medical"; "nfcorpus"] |} ],
          corpus, seen_docs)
  | [] => Ok (queries, corpus, seen_docs)
  end.

Definition nfcorpus_loop (dataset : list NFCorpus.item) : result batch :=
  '(queries, corpus, _) ← for_enumerate nfcorpus_body 0 dataset ([], [], ∅);
  Ok (queries, corpus).

(** ** The built-in sample *)

Definition sample_queries : list Query := [
  {| qid := "q1"; query := "What is machine learning?";
     relevantDocs := ["d1"; "d2"]; relevanceScores := [f1_0; f0_8];
     tags := ["technical"] |};
  {| qid := "q2"; query := "How to bake sourdough bread?";
     relevantDocs := ["d3"]; relevanceScores := [f1_0];
     tags := ["cooking"] |};
  {| qid := "q3"; query := "Best Python web frameworks";
     relevantDocs := ["d4"; "d5"]; relevanceScores := [f1_0; f0_9];
     tags := ["programming"] |};
  {| qid := "q4"; query := "Climate change effects";
     relevantDocs := ["d6"]; relevanceScores := [f1_0];
     tags := ["science"] |};
  {| qid := "q5"; query := "Introduction to quantum computing";
     relevantDocs := ["d7"; "d8"]; relevanceScores := [f1_0; f0_7];
     tags := ["technical"] |} ].

Definition sample_corpus : list Document := [
  {| did := "d1";
     content := "Machine learning is a subset of artificial intelligence that enables computers to learn from data without explicit programming.";
     metadata := [("category", SStr "ai")] |};
  {| did := "d2";
     content := "Deep learning uses neural networks with multiple layers to model complex patterns in data.";
     metadata := [("category", SStr "ai")] |};
  {| did := "d3";
     content := "Sourdough bread requires a starter culture of wild yeast and bacteria to ferment the dough.";
     metadata := [("category", SStr "cooking")] |};
  {| did := "d4";
     content := "Django is a high-level Python web framework that encourages rapid development and clean design.";
     metadata := [("category", SStr "programming")] |};
  {| did := "d5";
     content := "Flask is a lightweight Python web framework that is easy to get started with.";
     metadata := [("category", SStr "programming")] |};
  {| did := "d6";
     content := "Climate change refers to long-term shifts in global temperatures and weather patterns.";
     metadata := [("category", SStr "science")] |};
  {| did := "d7";
     content := "Quantum computing uses quantum bits or qubits to perform calculations exponentially faster.";
     metadata := [("category", SStr "physics")] |};
  {| did := "d8";
     content := "Quantum mechanics describes the behavior of matter and energy at the atomic scale.";
     metadata := [("category", SStr "physics")] |} ].

Definition sample_batch : batch := (sample_queries, sample_corpus).

(** ** The world outside the script, and the writer *)

(** The contents of a [.jsonl] file: one serialised object per line. *)
Inductive jsonl : Type :=
| QueryLines (data : list Query)
| DocumentLines (data : list Document).

Record World : Type := {
  (** [from datasets import load_dataset] succeeds. *)
  datasets_installed : bool;
  (** What [load_dataset] returns, or raises, for the four sources. *)
  hub_sts17 : result (list STS17.item);
  hub_squad : result (list SQuAD.item);
  hub_quora : result (list Quora.item);
  hub_nfcorpus : result (list NFCorpus.item);
  (** Can the directory be created (or does it exist as a directory). *)
  mkdir_ok : string -> bool;
  (** Can the file be opened for writing and written in full. *)
  write_ok : string -> bool
}.

(** Code with side effects: a function of the files written so far.
    The messages printed by the script are not part of the model. *)
Definition io (A : Type) : Type := gmap string jsonl -> result A * gmap string jsonl.

Global Instance io_ret : MRet io := fun A a fs => (Ok a, fs).
Global Instance io_bind : MBind io := fun A B k m fs =>
  match m fs with
  | (Ok a, fs') => k a fs'
  | (Raise e, fs') => (Raise e, fs')
  end.

(** A computation without side effects, run inside [io]. *)
Definition pure {A} (r : result A) : io A := fun fs => (r, fs).

(** [try: body except Exception as e: handler]. *)
Definition try_except {A} (body : io A) (handler : exn -> io A) : io A :=
  fun fs =>
    match body fs with
    | (Ok a, fs') => (Ok a, fs')
    | (Raise e, fs') => handler e fs'
    end.

Section Script.

Variable w : World.

Definition ensure_dir (path : string) : io unit :=
  fun fs => if mkdir_ok w path then (Ok tt, fs) else (Raise (OSError path), fs).

Definition save_jsonl (data : jsonl) (filepath : string) : io unit :=
  fun fs =>
    if write_ok w filepath then (Ok tt, <[filepath := data]> fs)
    else (Raise (OSError filepath), fs).

Definition download_mteb_sts17 : io bool :=
  try_except
    (dataset ← pure (hub_sts17 w);
     '(queries, corpus) ← pure (sts17_loop dataset);
     ensure_dir "datasets/mteb";;
     save_jsonl (QueryLines queries) "datasets/mteb/sts17-en-en-queries.jsonl";;
     save_jsonl (DocumentLines corpus) "datasets/mteb/sts17-en-en-corpus.jsonl";;
     mret true)
    (fun e => mret false).

Definition download_squad_sample : io bool :=
  try_except
    (dataset ← pure (hub_squad w);
     '(queries, corpus) ← pure (squad_loop dataset);
     ensure_dir "datasets/squad";;
     save_jsonl (QueryLines queries) "datasets/squad/queries.jsonl";;
     save_jsonl (DocumentLines corpus) "datasets/squad/corpus.jsonl";;
     mret true)
    (fun e => mret false).

Definition download_quora_sample : io bool :=
  try_except
    (dataset ← pure (hub_quora w);
     '(queries, corpus) ← pure (quora_loop dataset);
     ensure_dir "datasets/quora";;
     save_jsonl (QueryLines queries) "datasets/quora/queries.jsonl";;
     save_jsonl (DocumentLines corpus) "datasets/quora/corpus.jsonl";;
     mret true)
    (fun e => mret false).

Definition download_nfcorpus_sample : io bool :=
  try_except
    (dataset ← pure (hub_nfcorpus w);
     '(queries, corpus) ← pure (nfcorpus_loop dataset);
     ensure_dir "datasets/nfcorpus";;
     save_jsonl (QueryLines queries) "datasets/nfcorpus/queries.jsonl";;
     save_jsonl (DocumentLines corpus) "datasets/nfcorpus/corpus.jsonl";;
     mret true)
    (fun e => mret false).

(** No [try] here: what [ensure_dir] or [save_jsonl] raises leaves
    the function. *)
Definition create_sample_dataset : io bool :=
  let queries := sample_queries in
  let corpus := sample_corpus in
  ensure_dir "datasets/sample";;
  save_jsonl (QueryLines queries) "datasets/sample/queries.jsonl";;
  save_jsonl (DocumentLines corpus) "datasets/sample/corpus.jsonl";;
  mret true.

Definition main : io bool :=
  let results : gmap string bool := ∅ in
  r ← create_sample_dataset; let results := <["sample" := r]> results in
  r ← download_mteb_sts17; let results := <["sts17" := r]> results in
  r ← download_squad_sample; let results := <["squad" := r]> results in
  r ← download_quora_sample; let results := <["quora" := r]> results in
  r ← download_nfcorpus_sample; let results := <["nfcorpus" := r]> results in
  let successful := length (filter (fun s => s = true) (map_to_list results).*2) in
  mret (bool_decide (successful = size results)).

(** The module run as a script: the exit status of the process. An
    exception that reaches the top level ends the interpreter with
    status 1, as does the failed import. *)
Definition script : gmap string jsonl -> Z * gmap string jsonl :=
  fun fs =>
    if datasets_installed w then
      match main fs with
      | (Ok success, fs') => (if success then 0%Z else 1%Z, fs')
      | (Raise _, fs') => (1%Z, fs')
      end
    else (1%Z, fs).

End Script.

(** * Vocabulary of the properties *)

(** ** Batches *)

(** The batches the five adapters build and hand to [save_jsonl]. *)
Inductive output_batch : batch -> Prop :=
| out_sample : output_batch sample_batch
| out_sts17 dataset b : sts17_loop dataset = Ok b -> output_batch b
| out_squad dataset b : squad_loop dataset = Ok b -> output_batch b
| out_quora dataset b : quora_loop dataset = Ok b -> output_batch b
| out_nfcorpus dataset b : nfcorpus_loop dataset = Ok b -> output_batch b.

Definition referential_integrity (b : batch) : Prop :=
  Forall (fun q => Forall (fun doc_id => doc_id ∈ did <$> b.2) (relevantDocs q)) b.1.

Definition aligned (b : batch) : Prop :=
  Forall (fun q => length (relevantDocs q) = length (relevanceScores q)) b.1.

Definition answerable (b : batch) : Prop :=
  Forall (fun q => relevantDocs q <> []) b.1.

Definition unique_ids (b : batch) : Prop :=
  NoDup (did <$> b.2) /\ NoDup (qid <$> b.1).

Global Instance referential_integrity_dec b : Decision (referential_integrity b).
Proof. unfold referential_integrity. apply _. Defined.
Global Instance aligned_dec b : Decision (aligned b).
Proof. unfold aligned. apply _. Defined.
Global Instance answerable_dec b : Decision (answerable b).
Proof. unfold answerable. apply _. Defined.
Global Instance unique_ids_dec b : Decision (unique_ids b).
Proof. unfold unique_ids. apply _. Defined.

(** The Queries of the four downloaded sources carry one judgment. *)
Definition single_judgment (corpus : list Document) (q : Query) : Prop :=
  exists doc_id s,
    relevantDocs q = [doc_id] /\ relevanceScores q = [s] /\ doc_id ∈ did <$> corpus.


(** ** What the loops maintain *)

(** What the loop has built after the rows [pre]. *)
Definition sts17_rows (pre : list STS17.item) (st : batch) : Prop :=
  length st.1 = length pre /\ length st.2 = length pre /\
  forall i item, pre !! i = Some item ->
    exists sentence1 sentence2 score,
      item = {| STS17.sentence1 := Some sentence1; STS17.sentence2 := Some sentence2;
                STS17.score := Some score |} /\
      st.1 !! i = Some {| qid := "sts17-en-en-" +:+ pretty i;
                          query := sentence1;
                          relevantDocs := ["sts17-doc-" +:+ pretty i];
                          relevanceScores := [truediv score f5_0];
                          tags := ["sts"; "en-en"] |} /\
      st.2 !! i = Some {| did := "sts17-doc-" +:+ pretty i;
                          content := sentence2;
                          metadata := [("score", SFloat score)] |}.

(** The table [seen] maps a text to the ID of the one Document that
    holds it; IDs count the insertions. *)
Definition dedup_inv (prefix : string) (corpus : list Document)
    (seen : gmap string string) : Prop :=
  size seen = length corpus /\
  (forall k d, corpus !! k = Some d ->
     did d = prefix +:+ pretty k /\ seen !! content d = Some (did d)) /\
  (forall key doc_id, seen !! key = Some doc_id ->
     exists k d, corpus !! k = Some d /\ content d = key /\ did d = doc_id).

(** After the rows [pre]: the table invariant, and one Query per row
    that lists the ID stored for the context of the row. *)
Definition squad_inv (pre : list SQuAD.item) (st : squad_state) : Prop :=
  let '(queries, corpus, seen_contexts) := st in
  dedup_inv "squad-doc-" corpus seen_contexts /\
  length queries = length pre /\
  forall i item, pre !! i = Some item ->
    exists context question doc_id,
      SQuAD.context item = Some context /\
      SQuAD.question item = Some question /\
      seen_contexts !! context = Some doc_id /\
      queries !! i = Some {| qid := "squad-q-" +:+ pretty i;
                             query := question;
                             relevantDocs := [doc_id];
                             relevanceScores := [f1_0];
                             tags := ["qa"; "squad"] |}.

(** After the rows [pre]: the table invariant, both questions of every
    row in the table, and exactly one Query per duplicate pair. *)
Definition quora_inv (pre : list Quora.item) (st : quora_state) : Prop :=
  let '(queries, corpus, seen_questions) := st in
  dedup_inv "quora-q-" corpus seen_questions /\
  NoDup (qid <$> queries) /\
  (forall i item, pre !! i = Some item ->
     exists questions q1 q2 rest is_duplicate,
       Quora.questions item = Some questions /\
       Quora.text questions = Some (q1 :: q2 :: rest) /\
       Quora.is_duplicate item = Some is_duplicate /\
       is_Some (seen_questions !! q1) /\ is_Some (seen_questions !! q2)) /\
  (forall q, q ∈ queries <->
     exists i item questions q1 q2 rest q2_id,
       pre !! i = Some item /\
       Quora.questions item = Some questions /\
       Quora.text questions = Some (q1 :: q2 :: rest) /\
       Quora.is_duplicate item = Some true /\
       seen_questions !! q2 = Some q2_id /\
       q = {| qid := "quora-pair-" +:+ pretty i;
              query := q1;
              relevantDocs := [q2_id];
              relevanceScores := [f1_0];
              tags := ["duplicate"; "quora"] |}).

(** After the rows [pre]: the table holds exactly the IDs of the
    corpus, and there is exactly one Query per row with a
    ["corpus-id"]. *)
Definition nfcorpus_inv (pre : list NFCorpus.item) (st : nfcorpus_state) : Prop :=
  let '(queries, corpus, seen_docs) := st in
  NoDup (did <$> corpus) /\
  (forall doc_id, is_Some (seen_docs !! doc_id) <-> doc_id ∈ did <$> corpus) /\
  NoDup (qid <$> queries) /\
  (forall i item corpus_id,
     pre !! i = Some item -> NFCorpus.corpus_id item = Some corpus_id ->
     "nfcorpus-" +:+ corpus_id ∈ did <$> corpus) /\
  (forall q, q ∈ queries <->
     exists i item query corpus_id,
       pre !! i = Some item /\
       NFCorpus.query item = Some query /\
       NFCorpus.corpus_id item = Some corpus_id /\
       q = {| qid := "nfcorpus-q-" +:+ pretty i;
              query := query;
              relevantDocs := ["nfcorpus-" +:+ corpus_id];
              relevanceScores := [f1_0];
              tags := ["medical"; "nfcorpus"] |}).

(** ** Rows that have their columns *)

(** The row has the three columns the STS-17 loop reads. *)
Definition sts17_complete (item : STS17.item) : bool :=
  match STS17.sentence1 item, STS17.sentence2 item, STS17.score item with
  | Some _, Some _, Some _ => true
  | _, _, _ => false
  end.

(** The row has the two columns the SQuAD loop reads on every turn. *)
Definition squad_complete (item : SQuAD.item) : bool :=
  match SQuAD.context item, SQuAD.question item with
  | Some _, Some _ => true
  | _, _ => false
  end.

(** The row has every column the SQuAD loop may read. *)
Definition squad_full (item : SQuAD.item) : bool :=
  match SQuAD.context item, SQuAD.title item, SQuAD.question item with
  | Some _, Some _, Some _ => true
  | _, _, _ => false
  end.

(** The row has the columns the Quora loop reads, two texts included. *)
Definition quora_complete (item : Quora.item) : bool :=
  match Quora.questions item, Quora.is_duplicate item with
  | Some questions, Some _ =>
      match Quora.text questions with
      | Some (_ :: _ :: _) => true
      | _ => false
      end
  | _, _ => false
  end.

(** ** The shape of a downloading adapter *)

(** The four downloading adapters are instances of one function (see
    the [_shape] lemmas); it is used to reason about them together. *)
Definition fetch_normalise_write {X} (w : World) (hub : result (list X))
    (loop : list X -> result batch) (dir qpath cpath : string) : io bool :=
  try_except
    (dataset ← pure hub;
     '(queries, corpus) ← pure (loop dataset);
     ensure_dir w dir;;
     save_jsonl w (QueryLines queries) qpath;;
     save_jsonl w (DocumentLines corpus) cpath;;
     mret true)
    (fun e => mret false).

(** ** Example rows and worlds *)

Definition sts17_example : list STS17.item :=
  [ {| STS17.sentence1 := Some "a"; STS17.sentence2 := Some "b";
       STS17.score := Some f5_0 |};
    {| STS17.sentence1 := Some "c"; STS17.sentence2 := Some "b";
       STS17.score := Some f0_0 |} ].

Definition sts17_example_batch : batch :=
  ([ {| qid := "sts17-en-en-0"; query := "a"; relevantDocs := ["sts17-doc-0"];
        relevanceScores := [f1_0]; tags := ["sts"; "en-en"] |};
     {| qid := "sts17-en-en-1"; query := "c"; relevantDocs := ["sts17-doc-1"];
        relevanceScores := [f0_0]; tags := ["sts"; "en-en"] |} ],
   [ {| did := "sts17-doc-0"; content := "b"; metadata := [("score", SFloat f5_0)] |};
     {| did := "sts17-doc-1"; content := "b"; metadata := [("score", SFloat f0_0)] |} ]).

Definition squad_example : list SQuAD.item :=
  [ {| SQuAD.context := Some "same text"; SQuAD.title := Some "t";
       SQuAD.question := Some "who?" |};
    {| SQuAD.context := Some "same text"; SQuAD.title := Some "t";
       SQuAD.question := Some "when?" |} ].

Definition squad_example_batch : batch :=
  ([ {| qid := "squad-q-0"; query := "who?"; relevantDocs := ["squad-doc-0"];
        relevanceScores := [f1_0]; tags := ["qa"; "squad"] |};
     {| qid := "squad-q-1"; query := "when?"; relevantDocs := ["squad-doc-0"];
        relevanceScores := [f1_0]; tags := ["qa"; "squad"] |} ],
   [ {| did := "squad-doc-0"; content := "same text";
        metadata := [("title", SStr "t")] |} ]).

Definition quora_example : list Quora.item :=
  [ {| Quora.questions := Some {| Quora.id := Some [1%Z; 2%Z];
                                  Quora.text := Some ["x"; "same text"] |};
       Quora.is_duplicate := Some true |};
    {| Quora.questions := Some {| Quora.id := Some [3%Z; 4%Z];
                                  Quora.text := Some ["y"; "same text"] |};
       Quora.is_duplicate := Some true |} ].

Definition nfcorpus_example : list NFCorpus.item :=
  [ {| NFCorpus.query := Some "q"; NFCorpus.corpus_id := Some "MED-1";
       NFCorpus.corpus_text := Some "text" |};
    {| NFCorpus.query := Some "r"; NFCorpus.corpus_id := None;
       NFCorpus.corpus_text := None |} ].

Definition nfcorpus_example_batch : batch :=
  ([ {| qid := "nfcorpus-q-0"; query := "q"; relevantDocs := ["nfcorpus-MED-1"];
        relevanceScores := [f1_0]; tags := ["medical"; "nfcorpus"] |} ],
   [ {| did := "nfcorpus-MED-1"; content := "text";
        metadata := [("medical", SBool true)] |} ]).

(** A world in which everything works and the hub serves the example
    rows. *)
Definition w_ok : World := {|
  datasets_installed := true;
  hub_sts17 := Ok sts17_example;
  hub_squad := Ok squad_example;
  hub_quora := Ok quora_example;
  hub_nfcorpus := Ok nfcorpus_example;
  mkdir_ok := fun _ => true;
  write_ok := fun _ => true
|}.

(** A world like [w_ok], except that [datasets/sample] cannot be
    created (say, a regular file of that name exists). *)
Definition w_sample_blocked : World := {|
  datasets_installed := true;
  hub_sts17 := hub_sts17 w_ok;
  hub_squad := hub_squad w_ok;
  hub_quora := hub_quora w_ok;
  hub_nfcorpus := hub_nfcorpus w_ok;
  mkdir_ok := fun path => bool_decide (path <> "datasets/sample");
  write_ok := fun _ => true
|}.

(** A hub whose NFCorpus rows lack the optional columns: the first has
    no ["corpus-id"], the second no ["corpus-text"]. *)
Definition nfcorpus_sparse : list NFCorpus.item :=
  [ {| NFCorpus.query := Some "r"; NFCorpus.corpus_id := None;
       NFCorpus.corpus_text := Some "unused" |};
    {| NFCorpus.query := Some "q"; NFCorpus.corpus_id := Some "MED-1";
       NFCorpus.corpus_text := None |} ].

Definition w_nfcorpus_sparse : World := {|
  datasets_installed := true;
  hub_sts17 := hub_sts17 w_ok;
  hub_squad := hub_squad w_ok;
  hub_quora := hub_quora w_ok;
  hub_nfcorpus := Ok nfcorpus_sparse;
  mkdir_ok := fun _ => true;
  write_ok := fun _ => true
|}.

(** A hub whose second STS-17 row has no ["sentence2"]. *)
Definition sts17_broken : list STS17.item :=
  [ {| STS17.sentence1 := Some "a"; STS17.sentence2 := Some "b";
       STS17.score := Some f5_0 |};
    {| STS17.sentence1 := Some "c"; STS17.sentence2 := None;
       STS17.score := Some f0_0 |} ].

Definition w_sts17_broken : World := {|
  datasets_installed := true;
  hub_sts17 := Ok sts17_broken;
  hub_squad := hub_squad w_ok;
  hub_quora := hub_quora w_ok;
  hub_nfcorpus := hub_nfcorpus w_ok;
  mkdir_ok := fun _ => true;
  write_ok := fun _ => true
|}.

(** The float [4.4]. *)
Definition f4_4 : float := S754_finite false 4953959590107546 (-50).

(** ** Vocabulary of the further properties *)

(** The distinct elements of a list, in order of first appearance. *)
Definition first_occurrences (l : list string) : list string :=
  foldl (fun acc x => if decide (x ∈ acc) then acc else acc ++ [x]) [] l.

(** The contexts of the rows, in row order. *)
Definition squad_contexts (dataset : list SQuAD.item) : list string :=
  omap SQuAD.context dataset.

(** The two questions of a row. *)
Definition quora_pair (item : Quora.item) : list string :=
  match Quora.questions item with
  | Some questions =>
      match Quora.text questions with
      | Some (q1 :: q2 :: _) => [q1; q2]
      | _ => []
      end
  | None => []
  end.

(** The questions of the rows, in reading order. *)
Definition quora_questions (dataset : list Quora.item) : list string :=
  dataset ≫= quora_pair.

(** The Document ID a row refers to. *)
Definition nfcorpus_doc_id (item : NFCorpus.item) : option string :=
  (fun corpus_id => "nfcorpus-" +:+ corpus_id) <$> NFCorpus.corpus_id item.

Definition nfcorpus_doc_ids (dataset : list NFCorpus.item) : list string :=
  omap nfcorpus_doc_id dataset.

(** The Document [d] was created from the first row that has its
    text. *)
Definition squad_first_row (pre : list SQuAD.item) (d : Document) : Prop :=
  exists i item title,
    pre !! i = Some item /\
    SQuAD.context item = Some (content d) /\
    SQuAD.title item = Some title /\
    metadata d = [("title", SStr title)] /\
    forall j earlier, j < i -> pre !! j = Some earlier ->
      SQuAD.context earlier <> Some (content d).

Definition squad_corpus_inv (pre : list SQuAD.item) (st : squad_state) : Prop :=
  let '(queries, corpus, seen_contexts) := st in
  dedup_inv "squad-doc-" corpus seen_contexts /\
  content <$> corpus = first_occurrences (squad_contexts pre) /\
  Forall (squad_first_row pre) corpus.

(** The ID of the Query a row yields, if it yields one. *)
Definition quora_query_id (i : nat) (item : Quora.item) : option string :=
  match Quora.is_duplicate item with
  | Some true => Some ("quora-pair-" +:+ pretty i)
  | _ => None
  end.

Definition nfcorpus_query_id (i : nat) (item : NFCorpus.item) : option string :=
  match NFCorpus.corpus_id item with
  | Some _ => Some ("nfcorpus-q-" +:+ pretty i)
  | None => None
  end.

(** The IDs [f] gives to the rows that yield a Query, in row order. *)
Definition query_ids {X} (f : nat -> X -> option string) (dataset : list X) : list string :=
  omap (fun o : option string => o) (imap f dataset).

Definition quora_corpus_inv (pre : list Quora.item) (st : quora_state) : Prop :=
  let '(queries, corpus, seen_questions) := st in
  dedup_inv "quora-q-" corpus seen_questions /\
  content <$> corpus = first_occurrences (quora_questions pre) /\
  qid <$> queries = query_ids quora_query_id pre.

(** The Document [d] was created from the first row that refers to
    its ID. *)
Definition nfcorpus_first_row (pre : list NFCorpus.item) (d : Document) : Prop :=
  exists i item,
    pre !! i = Some item /\
    nfcorpus_doc_id item = Some (did d) /\
    content d = default ("Document " +:+ did d) (NFCorpus.corpus_text item) /\
    forall j earlier, j < i -> pre !! j = Some earlier ->
      nfcorpus_doc_id earlier <> Some (did d).

Definition nfcorpus_corpus_inv (pre : list NFCorpus.item) (st : nfcorpus_state) : Prop :=
  let '(queries, corpus, seen_docs) := st in
  (forall doc_id, is_Some (seen_docs !! doc_id) <-> doc_id ∈ did <$> corpus) /\
  did <$> corpus = first_occurrences (nfcorpus_doc_ids pre) /\
  Forall (nfcorpus_first_row pre) corpus /\
  qid <$> queries = query_ids nfcorpus_query_id pre.

(** A score between [0.0] and [1.0]. *)
Definition unit_score (s : float) : bool := le f0_0 s && le s f1_0.

Definition unit_scores (b : batch) : Prop :=
  Forall (fun q => Forall (fun s => unit_score s = true) (relevanceScores q)) b.1.

(** A raw STS-17 score the normaliser is meant for: a float of
    [[0.0, 5.0]]. *)
Definition likert_score (s : float) : bool := is_float s && le f0_0 s && le s f5_0.

(** [b'] continues [b]: it has the same Queries and Documents, in the
    same places, and possibly more after them. *)
Definition batch_extends (b b' : batch) : Prop :=
  b.1 `prefix_of` b'.1 /\ b.2 `prefix_of` b'.2.

(** The order on the loop states of the three adapters with a table. *)
Definition state_extends {T} (s s' : list Query * list Document * T) : Prop :=
  s.1.1 `prefix_of` s'.1.1 /\ s.1.2 `prefix_of` s'.1.2.

(** The five adapters [main] calls, in its order. *)
Inductive adapter : Type :=
| adapter_sample
| adapter_sts17
| adapter_squad
| adapter_quora
| adapter_nfcorpus.

Definition run_adapter (a : adapter) (w : World) : io bool :=
  match a with
  | adapter_sample => create_sample_dataset w
  | adapter_sts17 => download_mteb_sts17 w
  | adapter_squad => download_squad_sample w
  | adapter_quora => download_quora_sample w
  | adapter_nfcorpus => download_nfcorpus_sample w
  end.

(** The two files an adapter writes. *)
Definition queries_path (a : adapter) : string :=
  match a with
  | adapter_sample => "datasets/sample/queries.jsonl"
  | adapter_sts17 => "datasets/mteb/sts17-en-en-queries.jsonl"
  | adapter_squad => "datasets/squad/queries.jsonl"
  | adapter_quora => "datasets/quora/queries.jsonl"
  | adapter_nfcorpus => "datasets/nfcorpus/queries.jsonl"
  end.

Definition corpus_path (a : adapter) : string :=
  match a with
  | adapter_sample => "datasets/sample/corpus.jsonl"
  | adapter_sts17 => "datasets/mteb/sts17-en-en-corpus.jsonl"
  | adapter_squad => "datasets/squad/corpus.jsonl"
  | adapter_quora => "datasets/quora/corpus.jsonl"
  | adapter_nfcorpus => "datasets/nfcorpus/corpus.jsonl"
  end.


(** The first row with each context has a title. *)
Definition squad_titled (dataset : list SQuAD.item) : Prop :=
  forall i item text,
    dataset !! i = Some item -> SQuAD.context item = Some text ->
    (forall j earlier, j < i -> dataset !! j = Some earlier ->
       SQuAD.context earlier <> Some text) ->
    is_Some (SQuAD.title item).

(** SQuAD rows in which the second row repeats the context of the first
    and has no [title]. *)
Definition squad_untitled_repeat : list SQuAD.item :=
  [ {| SQuAD.context := Some "same text"; SQuAD.title := Some "t";
       SQuAD.question := Some "who?" |};
    {| SQuAD.context := Some "same text"; SQuAD.title := None;
       SQuAD.question := Some "when?" |} ].

(** A file no adapter writes. *)
Definition fs_notes : gmap string jsonl := {[ "notes.txt" := QueryLines [] ]}.

(** * Loops and lists *)

Section ForEnumerate.
Context {X St : Type} (body : nat -> X -> St -> result St).

(** Invariant rule for [for_enumerate]: [I pre s] speaks of the rows
    [pre] consumed so far and of the loop state [s] they lead to. *)
Lemma for_enumerate_from (I : list X -> St -> Prop) :
  (forall pre x s s1,
      I pre s -> body (length pre) x s = Ok s1 -> I (pre ++ [x]) s1) ->
  forall xs pre s s',
    I pre s -> for_enumerate body (length pre) xs s = Ok s' -> I (pre ++ xs) s'.
Proof.
  intros Hstep xs. induction xs as [|x xs IH]; intros pre s s' HI Hrun; simpl in Hrun.
  - rewrite app_nil_r. congruence.
  - destruct (body (length pre) x s) as [s1|e] eqn:Hb; [|discriminate].
    replace (pre ++ x :: xs) with ((pre ++ [x]) ++ xs) by (rewrite <- app_assoc; reflexivity).
    apply (IH (pre ++ [x]) s1 s').
    + eapply Hstep; eassumption.
    + rewrite length_app. simpl. rewrite Nat.add_1_r. exact Hrun.
Qed.

Lemma for_enumerate_inv (I : list X -> St -> Prop) xs s0 s' :
  I [] s0 ->
  (forall pre x s s1,
      I pre s -> body (length pre) x s = Ok s1 -> I (pre ++ [x]) s1) ->
  for_enumerate body 0 xs s0 = Ok s' -> I xs s'.
Proof.
  intros H0 Hstep Hrun.
  apply (for_enumerate_from I Hstep xs [] s0 s' H0 Hrun).
Qed.

(** When the loop ends normally the body ended normally on every
    row; a row on which the body always raises makes the loop raise. *)
Lemma for_enumerate_body_Ok xs :
  forall i s s',
    for_enumerate body i xs s = Ok s' ->
    forall k x, xs !! k = Some x -> exists s1 s2, body (i + k) x s1 = Ok s2.
Proof.
  induction xs as [|y ys IH]; intros i s s' Hrun k x Hk; [discriminate|].
  simpl in Hrun. destruct (body i y s) as [s1|e] eqn:Hb; [|discriminate].
  destruct k as [|k]; simpl in Hk.
  - inversion Hk; subst. exists s, s1. rewrite Nat.add_0_r. exact Hb.
  - destruct (IH _ _ _ Hrun k x Hk) as (t1 & t2 & Ht).
    exists t1, t2. rewrite <- Nat.add_succ_comm. exact Ht.
Qed.
End ForEnumerate.

Lemma for_enumerate_total {X St} (body : nat -> X -> St -> result St) xs :
  (forall i x s, x ∈ xs -> exists s', body i x s = Ok s') ->
  forall i s, exists s', for_enumerate body i xs s = Ok s'.
Proof.
  induction xs as [|x xs IH]; intros Hbody i s; simpl.
  - eauto.
  - destruct (Hbody i x s) as [s1 Hs1]; [left|].
    rewrite Hs1. apply IH. intros j y t Hy. apply Hbody. right. exact Hy.
Qed.

Lemma for_enumerate_app {X St} (body : nat -> X -> St -> result St) xs ys i s :
  for_enumerate body i (xs ++ ys) s =
  for_enumerate body i xs s ≫= for_enumerate body (i + length xs) ys.
Proof.
  revert i s. induction xs as [|x xs IH]; intros i s; simpl.
  - rewrite Nat.add_0_r. reflexivity.
  - destruct (body i x s) as [s1|e]; [|reflexivity].
    rewrite IH. rewrite <- Nat.add_succ_comm. reflexivity.
Qed.

(** A row on which the body raises whatever the state makes the loop
    raise. *)
Lemma for_enumerate_row_raises {X St} (body : nat -> X -> St -> result St) xs x :
  x ∈ xs ->
  (forall i s, exists e, body i x s = Raise e) ->
  forall i s, exists e, for_enumerate body i xs s = Raise e.
Proof.
  intros Hin Hraise i s.
  destruct (for_enumerate body i xs s) as [s'|e] eqn:Hrun; [|eauto].
  apply list_elem_of_lookup in Hin as [k Hk].
  destruct (for_enumerate_body_Ok body xs i s s' Hrun k x Hk) as (s1 & s2 & Hb).
  destruct (Hraise (i + k) s1) as [e He]. congruence.
Qed.

(** Formatted identifiers with the same prefix are equal only at equal
    counters. *)
Lemma fstring_nat_inj (prefix : string) (i j : nat) :
  prefix +:+ pretty i = prefix +:+ pretty j -> i = j.
Proof. intros H. apply (inj (String.app prefix)) in H. apply (inj pretty) in H. exact H. Qed.

Lemma lookup_snoc_inv {A} (pre : list A) (x y : A) i :
  (pre ++ [x]) !! i = Some y ->
  (i < length pre /\ pre !! i = Some y) \/ (i = length pre /\ y = x).
Proof.
  intros Hi. destruct (decide (i < length pre)) as [Hlt|Hge].
  - left. rewrite lookup_app_l in Hi by exact Hlt. auto.
  - right. assert (i = length pre) as ->.
    { apply lookup_lt_Some in Hi. rewrite length_app in Hi. simpl in Hi. lia. }
    rewrite list_lookup_middle in Hi by reflexivity. inversion Hi. auto.
Qed.

(** A list whose [i]-th identifier is [prefix] followed by [i] has no
    duplicate. *)
Lemma NoDup_positional {A} (f : A -> string) (prefix : string) (l : list A) :
  (forall i x, l !! i = Some x -> f x = prefix +:+ pretty i) -> NoDup (f <$> l).
Proof.
  intros H. apply NoDup_alt. intros i j s Hi Hj.
  rewrite list_lookup_fmap in Hi, Hj.
  destruct (l !! i) as [x|] eqn:Hxi; [|discriminate].
  destruct (l !! j) as [y|] eqn:Hyj; [|discriminate].
  simpl in Hi, Hj. apply (fstring_nat_inj prefix).
  rewrite <- (H i x Hxi), <- (H j y Hyj). congruence.
Qed.

Lemma filter_unique {A} (f : A -> string) (l : list A) (x : A) :
  NoDup (f <$> l) -> x ∈ l -> filter (fun y => f y = f x) l = [x].
Proof.
  induction l as [|y l IH]; intros Hnd Hin; [inversion Hin|].
  rewrite fmap_cons in Hnd. apply NoDup_cons in Hnd as [Hy Hnd].
  assert (Hnone : forall z, f z ∉ f <$> l -> filter (fun y => f y = f z) l = []).
  { intros z Hz. destruct (filter (fun y => f y = f z) l) as [|u us] eqn:Hf; [reflexivity|].
    assert (u ∈ filter (fun y => f y = f z) l) as Hu by (rewrite Hf; left).
    apply list_elem_of_filter in Hu as [Heq Hu].
    destruct Hz. rewrite <- Heq. apply list_elem_of_fmap. eauto. }
  apply elem_of_cons in Hin as [<-|Hin].
  - rewrite filter_cons_True by reflexivity. rewrite Hnone by exact Hy. reflexivity.
  - rewrite filter_cons_False; [apply IH; assumption|].
    intros Heq. apply Hy. rewrite Heq. apply list_elem_of_fmap. eauto.
Qed.

(** * STS-17: one Query and one Document per row *)

Lemma sts17_body_Ok i item queries corpus st' :
  sts17_body i item (queries, corpus) = Ok st' ->
  exists sentence1 sentence2 score,
    item = {| STS17.sentence1 := Some sentence1; STS17.sentence2 := Some sentence2;
              STS17.score := Some score |} /\
    st' = (queries ++ [ {| qid := "sts17-en-en-" +:+ pretty i;
                           query := sentence1;
                           relevantDocs := ["sts17-doc-" +:+ pretty i];
                           relevanceScores := [truediv score f5_0];
                           tags := ["sts"; "en-en"] |} ],
           corpus ++ [ {| did := "sts17-doc-" +:+ pretty i;
                          content := sentence2;
                          metadata := [("score", SFloat score)] |} ]).
Proof.
  unfold sts17_body. intros H.
  destruct item as [s1 s2 sc]; simpl in H.
  destruct s1 as [s1|]; [|discriminate].
  destruct sc as [sc|]; [|discriminate].
  destruct s2 as [s2|]; [|discriminate].
  simpl in H. inversion H; subst. eauto.
Qed.

Lemma sts17_loop_rows dataset st :
  sts17_loop dataset = Ok st -> sts17_rows dataset st.
Proof.
  unfold sts17_loop. apply for_enumerate_inv.
  - repeat split. intros i item Hi. discriminate.
  - intros pre x [qs c] s1 (Hq & Hc & Hrows) Hb. simpl in Hq, Hc, Hrows.
    apply sts17_body_Ok in Hb as (s1' & s2' & sc & -> & ->).
    unfold sts17_rows; simpl. rewrite !length_app; simpl.
    split; [lia|]. split; [lia|].
    intros i item Hi.
    destruct (decide (i < length pre)) as [Hlt|Hge].
    + rewrite lookup_app_l in Hi by exact Hlt.
      destruct (Hrows i item Hi) as (a & b & c0 & -> & Hqi & Hci).
      exists a, b, c0. split; [reflexivity|].
      rewrite !lookup_app_l by lia. auto.
    + assert (i = length pre) as ->.
      { apply lookup_lt_Some in Hi. rewrite length_app in Hi. simpl in Hi. lia. }
      rewrite list_lookup_middle in Hi by reflexivity. inversion Hi; subst item.
      exists s1', s2', sc. split; [reflexivity|].
      rewrite !list_lookup_middle by congruence. auto.
Qed.

Lemma sts17_loop_total dataset :
  Forall (fun item => sts17_complete item = true) dataset ->
  exists b, sts17_loop dataset = Ok b.
Proof.
  intros Hall. unfold sts17_loop. apply for_enumerate_total.
  intros i [s1 s2 sc] [qs c] Hin.
  rewrite Forall_forall in Hall. specialize (Hall _ Hin).
  unfold sts17_complete in Hall. simpl in Hall.
  destruct s1, s2, sc; try discriminate. unfold sts17_body. simpl. eauto.
Qed.

Lemma sts17_incomplete_raises item :
  sts17_complete item = false -> forall i st, exists e, sts17_body i item st = Raise e.
Proof.
  intros H i [qs c]. destruct item as [[s1|] [s2|] [sc|]];
    try discriminate; unfold sts17_body; simpl; eauto.
Qed.

Lemma sts17_positional dataset queries corpus :
  sts17_loop dataset = Ok (queries, corpus) ->
  (forall i d, corpus !! i = Some d -> did d = "sts17-doc-" +:+ pretty i) /\
  (forall i q, queries !! i = Some q -> qid q = "sts17-en-en-" +:+ pretty i).
Proof.
  intros H. apply sts17_loop_rows in H as (Hq & Hc & Hrows). simpl in *.
  split; intros i y Hi.
  - assert (is_Some (dataset !! i)) as [item Hitem].
    { apply lookup_lt_is_Some. rewrite <- Hc. eapply lookup_lt_Some; eassumption. }
    destruct (Hrows i item Hitem) as (s1 & s2 & sc & _ & _ & Hci).
    rewrite Hi in Hci. inversion Hci. reflexivity.
  - assert (is_Some (dataset !! i)) as [item Hitem].
    { apply lookup_lt_is_Some. rewrite <- Hq. eapply lookup_lt_Some; eassumption. }
    destruct (Hrows i item Hitem) as (s1 & s2 & sc & _ & Hqi & _).
    rewrite Hi in Hqi. inversion Hqi. reflexivity.
Qed.

Lemma sts17_single_judgment dataset queries corpus :
  sts17_loop dataset = Ok (queries, corpus) -> Forall (single_judgment corpus) queries.
Proof.
  intros H. apply sts17_loop_rows in H as (Hq & Hc & Hrows). simpl in *.
  apply Forall_lookup. intros i q Hi.
  assert (is_Some (dataset !! i)) as [item Hitem].
  { apply lookup_lt_is_Some. rewrite <- Hq. eapply lookup_lt_Some; eassumption. }
  destruct (Hrows i item Hitem) as (s1 & s2 & sc & _ & Hqi & Hci).
  rewrite Hi in Hqi. inversion Hqi; subst q.
  eexists _, _. repeat split.
  apply list_elem_of_fmap. eexists. split; [|eapply list_elem_of_lookup_2; exact Hci].
  reflexivity.
Qed.

(** * The dedup table of the SQuAD and Quora adapters *)

Lemma dedup_inv_empty prefix : dedup_inv prefix [] ∅.
Proof.
  split; [reflexivity|]. split.
  - intros k d H. discriminate.
  - intros key doc_id H. rewrite lookup_empty in H. discriminate.
Qed.

Lemma dedup_inv_insert prefix corpus seen key meta :
  dedup_inv prefix corpus seen ->
  seen !! key = None ->
  dedup_inv prefix
    (corpus ++ [ {| did := prefix +:+ pretty (size seen); content := key;
                    metadata := meta |} ])
    (<[key := prefix +:+ pretty (size seen)]> seen).
Proof.
  intros (Hsize & Hdocs & Hkeys) Hnew.
  split; [|split].
  - rewrite map_size_insert_None by exact Hnew.
    rewrite length_app. simpl. lia.
  - intros k d Hk.
    destruct (decide (k < length corpus)) as [Hlt|Hge].
    + rewrite lookup_app_l in Hk by exact Hlt.
      destruct (Hdocs k d Hk) as [Hid Hseen]. split; [exact Hid|].
      rewrite lookup_insert_ne; [exact Hseen|].
      intros ->. congruence.
    + assert (k = length corpus) as ->.
      { apply lookup_lt_Some in Hk. rewrite length_app in Hk. simpl in Hk. lia. }
      rewrite list_lookup_middle in Hk by reflexivity.
      inversion Hk; subst d; simpl.
      rewrite Hsize. split; [reflexivity|]. apply lookup_insert_eq.
  - intros key' doc_id Hlook.
    destruct (decide (key = key')) as [<-|Hne].
    + rewrite lookup_insert_eq in Hlook. inversion Hlook; subst doc_id.
      eexists (length corpus), _. split; [apply list_lookup_middle; reflexivity|].
      split; reflexivity.
    + rewrite lookup_insert_ne in Hlook by exact Hne.
      destruct (Hkeys key' doc_id Hlook) as (k & d & Hk & Hc & Hd).
      exists k, d. split; [|auto].
      apply lookup_app_l_Some. exact Hk.
Qed.

(** Two Documents at different positions carry different IDs. *)
Lemma dedup_inv_ids prefix corpus seen :
  dedup_inv prefix corpus seen -> NoDup (did <$> corpus).
Proof.
  intros (_ & Hdocs & _). apply NoDup_alt. intros i j x Hi Hj.
  rewrite list_lookup_fmap in Hi, Hj.
  destruct (corpus !! i) as [d|] eqn:Hdi; [|discriminate].
  destruct (corpus !! j) as [d'|] eqn:Hdj; [|discriminate].
  simpl in Hi, Hj.
  destruct (Hdocs i d Hdi) as [Hid _]. destruct (Hdocs j d' Hdj) as [Hid' _].
  apply (fstring_nat_inj prefix). congruence.
Qed.

(** No text is held by two Documents. *)
Lemma dedup_inv_contents prefix corpus seen :
  dedup_inv prefix corpus seen -> NoDup (content <$> corpus).
Proof.
  intros (_ & Hdocs & _). apply NoDup_alt. intros i j x Hi Hj.
  rewrite list_lookup_fmap in Hi, Hj.
  destruct (corpus !! i) as [d|] eqn:Hdi; [|discriminate].
  destruct (corpus !! j) as [d'|] eqn:Hdj; [|discriminate].
  simpl in Hi, Hj.
  destruct (Hdocs i d Hdi) as [Hid Hs]. destruct (Hdocs j d' Hdj) as [Hid' Hs'].
  apply (fstring_nat_inj prefix).
  rewrite <- Hid, <- Hid'.
  assert (content d = content d') as Hc by congruence.
  rewrite Hc in Hs. congruence.
Qed.

Lemma dedup_inv_lookup prefix corpus seen key doc_id :
  dedup_inv prefix corpus seen -> seen !! key = Some doc_id ->
  exists d, d ∈ corpus /\ content d = key /\ did d = doc_id.
Proof.
  intros (_ & _ & Hkeys) H. destruct (Hkeys key doc_id H) as (k & d & Hk & Hc & Hd).
  exists d. split; [|auto]. apply list_elem_of_lookup. eauto.
Qed.

Lemma dedup_inv_filter prefix corpus seen key doc_id :
  dedup_inv prefix corpus seen -> seen !! key = Some doc_id ->
  exists d, filter (fun d' => content d' = key) corpus = [d] /\ did d = doc_id.
Proof.
  intros Hd Hk. destruct (dedup_inv_lookup _ _ _ _ _ Hd Hk) as (d & Hin & <- & Hid).
  exists d. split; [|exact Hid].
  apply filter_unique; [eapply dedup_inv_contents; eassumption|exact Hin].
Qed.

(** * SQuAD *)

(** One turn of the loop: either the context is new, and one Document
    is appended and the table extended, or it has been seen, and the
    stored ID is reused and the corpus left alone. *)
Lemma squad_body_Ok i item queries corpus seen_contexts st' :
  squad_body i item (queries, corpus, seen_contexts) = Ok st' ->
  exists context question doc_id corpus' seen',
    SQuAD.context item = Some context /\
    SQuAD.question item = Some question /\
    st' = (queries ++ [ {| qid := "squad-q-" +:+ pretty i;
                           query := question;
                           relevantDocs := [doc_id];
                           relevanceScores := [f1_0];
                           tags := ["qa"; "squad"] |} ],
           corpus', seen') /\
    ((seen_contexts !! context = None /\
      doc_id = "squad-doc-" +:+ pretty (size seen_contexts) /\
      seen' = <[context := doc_id]> seen_contexts /\
      exists title, SQuAD.title item = Some title /\
        corpus' = corpus ++ [ {| did := doc_id; content := context;
                                 metadata := [("title", SStr title)] |} ])
     \/
     (seen_contexts !! context = Some doc_id /\
      seen' = seen_contexts /\ corpus' = corpus)).
Proof.
  unfold squad_body. intros H.
  destruct item as [c t q]; simpl in *.
  destruct c as [c|]; [|discriminate]. simpl in H.
  destruct (seen_contexts !! c) as [doc_id|] eqn:Hseen.
  - simpl in H. destruct q as [q|]; [|discriminate]. simpl in H.
    inversion H; subst st'.
    exists c, q, doc_id, corpus, seen_contexts. repeat split; auto.
  - destruct t as [t|]; [|discriminate]. simpl in H.
    destruct q as [q|]; [|discriminate]. simpl in H.
    inversion H; subst st'.
    eexists c, q, _, _, _. repeat split; eauto 10.
Qed.

Lemma squad_loop_inv dataset queries corpus :
  squad_loop dataset = Ok (queries, corpus) ->
  exists seen_contexts, squad_inv dataset (queries, corpus, seen_contexts).
Proof.
  unfold squad_loop. intros H.
  destruct (for_enumerate squad_body 0 dataset ([], [], ∅)) as [[[qs c] seen]|e] eqn:Hrun;
    [|discriminate].
  simpl in H. inversion H; subst qs c. exists seen.
  revert Hrun. apply for_enumerate_inv.
  - split; [apply dedup_inv_empty|]. split; [reflexivity|]. intros i item Hi. discriminate.
  - intros pre x [[qs c] sn] s1 (Hd & Hlen & Hrows) Hb.
    apply squad_body_Ok in Hb
      as (ctx & qu & doc_id & c' & sn' & Hctx & Hq & -> & Hcase).
    assert (dedup_inv "squad-doc-" c' sn' /\ sn' !! ctx = Some doc_id /\
            forall key v, sn !! key = Some v -> sn' !! key = Some v) as (Hd' & Hnew & Hmono).
    { destruct Hcase as [(Hnone & -> & -> & t & Ht & ->)|(Hsome & -> & ->)].
      - split; [apply dedup_inv_insert; assumption|]. split; [apply lookup_insert_eq|].
        intros key v Hk. rewrite lookup_insert_ne; [exact Hk|]. intros ->. congruence.
      - auto. }
    split; [exact Hd'|]. split; [rewrite !length_app; simpl; lia|].
    intros i item Hi.
    destruct (decide (i < length pre)) as [Hlt|Hge].
    + rewrite lookup_app_l in Hi by exact Hlt.
      destruct (Hrows i item Hi) as (a & b & d0 & Ha & Hb & Hs & Hqi).
      exists a, b, d0. repeat split; auto.
      rewrite lookup_app_l by lia. exact Hqi.
    + assert (i = length pre) as ->.
      { apply lookup_lt_Some in Hi. rewrite length_app in Hi. simpl in Hi. lia. }
      rewrite list_lookup_middle in Hi by reflexivity. inversion Hi; subst item.
      exists ctx, qu, doc_id. repeat split; auto.
      rewrite list_lookup_middle by congruence. reflexivity.
Qed.

Lemma squad_single_judgment dataset queries corpus :
  squad_loop dataset = Ok (queries, corpus) -> Forall (single_judgment corpus) queries.
Proof.
  intros H. apply squad_loop_inv in H as (seen & Hd & Hlen & Hrows).
  apply Forall_lookup. intros i q Hi.
  assert (is_Some (dataset !! i)) as [item Hitem].
  { apply lookup_lt_is_Some. rewrite <- Hlen. eapply lookup_lt_Some; eassumption. }
  destruct (Hrows i item Hitem) as (ctx & qu & doc_id & _ & _ & Hseen & Hqi).
  rewrite Hi in Hqi. inversion Hqi; subst q.
  eexists _, _. repeat split.
  destruct (dedup_inv_lookup _ _ _ _ _ Hd Hseen) as (d & Hin & _ & <-).
  apply list_elem_of_fmap. eauto.
Qed.

Lemma squad_positional dataset queries corpus :
  squad_loop dataset = Ok (queries, corpus) ->
  (forall k d, corpus !! k = Some d -> did d = "squad-doc-" +:+ pretty k) /\
  (forall i q, queries !! i = Some q -> qid q = "squad-q-" +:+ pretty i).
Proof.
  intros H. apply squad_loop_inv in H as (seen & (_ & Hdocs & _) & Hlen & Hrows).
  split; intros i y Hi.
  - apply (Hdocs i y Hi).
  - assert (is_Some (dataset !! i)) as [item Hitem].
    { apply lookup_lt_is_Some. rewrite <- Hlen. eapply lookup_lt_Some; eassumption. }
    destruct (Hrows i item Hitem) as (ctx & qu & doc_id & _ & _ & _ & Hqi).
    rewrite Hi in Hqi. inversion Hqi. reflexivity.
Qed.

Lemma squad_incomplete_raises item :
  squad_complete item = false -> forall i st, exists e, squad_body i item st = Raise e.
Proof.
  intros H i [[qs c] seen]. destruct item as [[ctx|] t [q|]];
    try discriminate; unfold squad_body; simpl; eauto.
  destruct (seen !! ctx); simpl; [eauto|].
  destruct t; simpl; eauto.
Qed.

(** The keys of the SQuAD table are contexts of rows already read. *)
Lemma squad_seen_keys pre st :
  for_enumerate squad_body 0 pre ([], [], ∅) = Ok st ->
  forall key, is_Some (st.2 !! key) ->
    exists item, item ∈ pre /\ SQuAD.context item = Some key.
Proof.
  intros Hrun.
  refine (for_enumerate_inv squad_body
    (fun pre st => forall key, is_Some (st.2 !! key) ->
       exists item, item ∈ pre /\ SQuAD.context item = Some key)
    pre ([], [], ∅) st _ _ Hrun).
  - simpl. intros key [v Hv]. rewrite lookup_empty in Hv. discriminate.
  - intros pre' x [[qs c] sn] s1 IH Hb key Hkey. simpl in IH.
    apply squad_body_Ok in Hb
      as (ctx & qu & doc_id & c' & sn' & Hctx & _ & -> & Hcase).
    simpl in Hkey.
    destruct Hcase as [(_ & _ & -> & _)|(_ & -> & _)].
    + destruct (decide (ctx = key)) as [->|Hne].
      * exists x. split; [apply elem_of_app; right; left|exact Hctx].
      * rewrite lookup_insert_ne in Hkey by exact Hne.
        destruct (IH key Hkey) as (item & Hin & Hc).
        exists item. split; [apply elem_of_app; left; exact Hin|exact Hc].
    + destruct (IH key Hkey) as (item & Hin & Hc).
      exists item. split; [apply elem_of_app; left; exact Hin|exact Hc].
Qed.

(** The first row with a given context needs its title. *)
Lemma squad_new_context_needs_title pre item suf text :
  SQuAD.context item = Some text ->
  SQuAD.title item = None ->
  (forall earlier, earlier ∈ pre -> SQuAD.context earlier <> Some text) ->
  exists e, squad_loop (pre ++ item :: suf) = Raise e.
Proof.
  intros Hctx Htitle Hnew. unfold squad_loop.
  rewrite for_enumerate_app.
  destruct (for_enumerate squad_body 0 pre ([], [], ∅)) as [[[qs c] seen]|e] eqn:Hpre;
    simpl; [|eauto].
  assert (seen !! text = None) as Hnone.
  { destruct (seen !! text) as [v|] eqn:Hv; [|reflexivity].
    destruct (squad_seen_keys pre _ Hpre text) as (earlier & Hin & Hc); [simpl; eauto|].
    destruct (Hnew earlier Hin Hc). }
  unfold squad_body at 1. rewrite Hctx. simpl. rewrite Hnone, Htitle. simpl. eauto.
Qed.

Lemma squad_loop_total dataset :
  Forall (fun item => squad_full item = true) dataset ->
  exists b, squad_loop dataset = Ok b.
Proof.
  intros Hall. unfold squad_loop.
  destruct (for_enumerate_total squad_body dataset) with (i := 0)
    (s := ([], [], ∅) : squad_state) as [[[qs c] sn] Hrun].
  - intros i [ctx t q] [[qs c] sn] Hin.
    rewrite Forall_forall in Hall. specialize (Hall _ Hin).
    unfold squad_full in Hall. simpl in Hall.
    destruct ctx as [ctx|], t, q; try discriminate. unfold squad_body. simpl.
    destruct (sn !! ctx); simpl; eauto.
  - rewrite Hrun. simpl. eauto.
Qed.

Lemma squad_example_run : squad_loop squad_example = Ok squad_example_batch.
Proof. vm_compute. reflexivity. Qed.

(** * Quora *)

Lemma quora_add_inv corpus seen q corpus' seen' :
  quora_add (corpus, seen) q = (corpus', seen') ->
  dedup_inv "quora-q-" corpus seen ->
  dedup_inv "quora-q-" corpus' seen' /\
  is_Some (seen' !! q) /\
  (forall key v, seen !! key = Some v -> seen' !! key = Some v).
Proof.
  unfold quora_add. intros H Hd.
  destruct (seen !! q) as [v|] eqn:Hq; inversion H; subst corpus' seen'.
  - split; [exact Hd|]. split; [eauto|auto].
  - split; [apply dedup_inv_insert; assumption|].
    split; [rewrite lookup_insert_eq; eauto|].
    intros key v Hk. rewrite lookup_insert_ne; [exact Hk|]. intros ->. congruence.
Qed.

(** One turn of the loop: both questions go through the table, and a
    Query is appended only for a pair marked as duplicate. *)
Lemma quora_body_Ok i item queries corpus seen_questions st' :
  quora_body i item (queries, corpus, seen_questions) = Ok st' ->
  exists questions q1 q2 rest is_duplicate corpus' seen',
    Quora.questions item = Some questions /\
    Quora.text questions = Some (q1 :: q2 :: rest) /\
    Quora.is_duplicate item = Some is_duplicate /\
    quora_add (quora_add (corpus, seen_questions) q1) q2 = (corpus', seen') /\
    if is_duplicate then
      exists q2_id,
        seen' !! q2 = Some q2_id /\
        st' = (queries ++ [ {| qid := "quora-pair-" +:+ pretty i;
                               query := q1;
                               relevantDocs := [q2_id];
                               relevanceScores := [f1_0];
                               tags := ["duplicate"; "quora"] |} ],
               corpus', seen')
    else st' = (queries, corpus', seen').
Proof.
  unfold quora_body. intros H.
  destruct item as [qt dup]; simpl in *.
  destruct qt as [[ids txt]|]; [|discriminate]. simpl in H.
  destruct txt as [txt|]; [|discriminate]. simpl in H.
  destruct txt as [|q1 [|q2 rest]]; try discriminate. simpl in H.
  destruct dup as [dup|]; [|discriminate]. simpl in H.
  destruct (quora_add (quora_add (corpus, seen_questions) q1) q2) as [c' s'] eqn:Hadd.
  exists {| Quora.id := ids; Quora.text := Some (q1 :: q2 :: rest) |}, q1, q2, rest, dup, c', s'.
  repeat split; auto.
  destruct dup.
  - destruct (s' !! q1) as [q1_id|]; [|discriminate]. simpl in H.
    destruct (s' !! q2) as [q2_id|]; [|discriminate]. simpl in H.
    inversion H; subst st'. eauto.
  - inversion H; reflexivity.
Qed.

Lemma quora_loop_inv dataset queries corpus :
  quora_loop dataset = Ok (queries, corpus) ->
  exists seen_questions, quora_inv dataset (queries, corpus, seen_questions).
Proof.
  unfold quora_loop. intros H.
  destruct (for_enumerate quora_body 0 dataset ([], [], ∅)) as [[[qs c] seen]|e] eqn:Hrun;
    [|discriminate].
  simpl in H. inversion H; subst qs c. exists seen.
  revert Hrun. apply for_enumerate_inv.
  - split; [apply dedup_inv_empty|]. split; [constructor|]. split.
    + intros i item Hi. discriminate.
    + intros q. split.
      * intros Hq. inversion Hq.
      * intros (i & item & _ & _ & _ & _ & _ & Hi & _). discriminate.
  - intros pre x [[qs c] sn] s1 (Hd & Hnd & Hrows & Hqs) Hb.
    apply quora_body_Ok in Hb
      as (qt & q1 & q2 & rest & dup & c' & sn' & Hqt & Htxt & Hdup & Hadd & Hst).
    destruct (quora_add (c, sn) q1) as [c1 sn1] eqn:Hadd1.
    destruct (quora_add_inv _ _ _ _ _ Hadd1 Hd) as (Hd1 & Hq1 & Hmono1).
    destruct (quora_add_inv _ _ _ _ _ Hadd Hd1) as (Hd2 & Hq2 & Hmono2).
    assert (Hmono : forall key v, sn !! key = Some v -> sn' !! key = Some v) by auto.
    assert (Hq1' : is_Some (sn' !! q1)) by (destruct Hq1 as [v Hv]; eauto).
    (* the rows consumed so far, the new one included *)
    assert (Hrows' : forall i item, (pre ++ [x]) !! i = Some item ->
      exists questions q1 q2 rest is_duplicate,
        Quora.questions item = Some questions /\
        Quora.text questions = Some (q1 :: q2 :: rest) /\
        Quora.is_duplicate item = Some is_duplicate /\
        is_Some (sn' !! q1) /\ is_Some (sn' !! q2)).
    { intros i item Hi.
      destruct (decide (i < length pre)) as [Hlt|Hge].
      - rewrite lookup_app_l in Hi by exact Hlt.
        destruct (Hrows i item Hi) as (a & b1 & b2 & r & d & Ha & Hb & Hc & [v1 Hv1] & [v2 Hv2]).
        exists a, b1, b2, r, d. repeat split; eauto.
      - assert (i = length pre) as ->.
        { apply lookup_lt_Some in Hi. rewrite length_app in Hi. simpl in Hi. lia. }
        rewrite list_lookup_middle in Hi by reflexivity. inversion Hi; subst item.
        exists qt, q1, q2, rest, dup. repeat split; auto. }
    (* the queries emitted for the earlier rows are unchanged *)
    assert (Hold : forall q, q ∈ qs <->
      exists i item questions q1 q2 rest q2_id,
        pre !! i = Some item /\
        Quora.questions item = Some questions /\
        Quora.text questions = Some (q1 :: q2 :: rest) /\
        Quora.is_duplicate item = Some true /\
        sn' !! q2 = Some q2_id /\
        q = {| qid := "quora-pair-" +:+ pretty i; query := q1;
               relevantDocs := [q2_id]; relevanceScores := [f1_0];
               tags := ["duplicate"; "quora"] |}).
    { intros q. rewrite Hqs. split.
      - intros (i & item & a & b1 & b2 & r & v & Hi & Ha & Hb & Hc & Hv & ->).
        exists i, item, a, b1, b2, r, v. repeat split; auto.
      - intros (i & item & a & b1 & b2 & r & v & Hi & Ha & Hb & Hc & Hv & ->).
        destruct (Hrows i item Hi) as (a' & b1' & b2' & r' & d' & Ha' & Hb' & Hc' & _ & [v' Hv']).
        assert (a' = a) as -> by congruence.
        assert (b2' = b2) as -> by congruence.
        assert (v' = v) as -> by (apply Hmono in Hv'; congruence).
        exists i, item, a, b1, b2, r, v. repeat split; auto. }
    assert (Hfresh : "quora-pair-" +:+ pretty (length pre) ∉ qid <$> qs).
    { intros Hin. apply list_elem_of_fmap in Hin as (q & Hid & Hq).
      apply Hqs in Hq as (i & item & a & b1 & b2 & r & v & Hi & _ & _ & _ & _ & ->).
      simpl in Hid. apply fstring_nat_inj in Hid. apply lookup_lt_Some in Hi. lia. }
    destruct dup.
    + destruct Hst as (q2_id & Hq2id & ->).
      split; [exact Hd2|]. split.
      { rewrite fmap_app. simpl. apply NoDup_app. split; [exact Hnd|]. split.
        - intros y Hy Hy1. apply list_elem_of_singleton in Hy1. subst y. contradiction.
        - apply NoDup_singleton. }
      split; [exact Hrows'|].
      intros q. rewrite elem_of_app, Hold, list_elem_of_singleton. split.
      * intros [(i & item & a & b1 & b2 & r & v & Hi & Hrest)| ->].
        -- exists i, item, a, b1, b2, r, v. split; [|exact Hrest].
           apply lookup_app_l_Some. exact Hi.
        -- exists (length pre), x, qt, q1, q2, rest, q2_id.
           split; [apply list_lookup_middle; reflexivity|]. repeat split; auto.
      * intros (i & item & a & b1 & b2 & r & v & Hi & Ha & Hb & Hc & Hv & ->).
        destruct (decide (i < length pre)) as [Hlt|Hge].
        -- left. rewrite lookup_app_l in Hi by exact Hlt.
           exists i, item, a, b1, b2, r, v. repeat split; auto.
        -- right.
           assert (i = length pre) as ->.
           { apply lookup_lt_Some in Hi. rewrite length_app in Hi. simpl in Hi. lia. }
           rewrite list_lookup_middle in Hi by reflexivity. inversion Hi; subst item.
           assert (a = qt) as -> by congruence.
           assert (b1 = q1 /\ b2 = q2) as [-> ->] by (split; congruence).
           assert (v = q2_id) as -> by congruence. reflexivity.
    + subst s1.
      split; [exact Hd2|]. split; [exact Hnd|]. split; [exact Hrows'|].
      intros q. rewrite Hold. split.
      * intros (i & item & a & b1 & b2 & r & v & Hi & Hrest).
        exists i, item, a, b1, b2, r, v. split; [|exact Hrest].
        apply lookup_app_l_Some. exact Hi.
      * intros (i & item & a & b1 & b2 & r & v & Hi & Ha & Hb & Hc & Hv & ->).
        destruct (decide (i < length pre)) as [Hlt|Hge].
        -- rewrite lookup_app_l in Hi by exact Hlt.
           exists i, item, a, b1, b2, r, v. repeat split; auto.
        -- assert (i = length pre) as ->.
           { apply lookup_lt_Some in Hi. rewrite length_app in Hi. simpl in Hi. lia. }
           rewrite list_lookup_middle in Hi by reflexivity. inversion Hi; subst item.
           congruence.
Qed.

Lemma quora_single_judgment dataset queries corpus :
  quora_loop dataset = Ok (queries, corpus) -> Forall (single_judgment corpus) queries.
Proof.
  intros H. apply quora_loop_inv in H as (seen & Hd & _ & _ & Hqs).
  apply Forall_forall. intros q Hq.
  apply Hqs in Hq as (i & item & a & q1 & q2 & r & q2_id & _ & _ & _ & _ & Hseen & ->).
  eexists _, _. repeat split.
  destruct (dedup_inv_lookup _ _ _ _ _ Hd Hseen) as (d & Hin & _ & <-).
  apply list_elem_of_fmap. eauto.
Qed.

Lemma quora_positional dataset queries corpus :
  quora_loop dataset = Ok (queries, corpus) ->
  (forall k d, corpus !! k = Some d -> did d = "quora-q-" +:+ pretty k) /\
  (forall q, q ∈ queries ->
     exists i, i < length dataset /\ qid q = "quora-pair-" +:+ pretty i).
Proof.
  intros H. apply quora_loop_inv in H as (seen & (_ & Hdocs & _) & _ & _ & Hqs).
  split.
  - intros k d Hk. apply (Hdocs k d Hk).
  - intros q Hq.
    apply Hqs in Hq as (i & item & a & q1 & q2 & r & q2_id & Hi & _ & _ & _ & _ & ->).
    exists i. split; [eapply lookup_lt_Some; eassumption|reflexivity].
Qed.

Lemma quora_incomplete_raises item :
  quora_complete item = false -> forall i st, exists e, quora_body i item st = Raise e.
Proof.
  intros H i [[qs c] seen]. unfold quora_complete in H. unfold quora_body.
  destruct item as [[[ids [[|q1 [|q2 rest]]|]]|] [dup|]];
    try discriminate; simpl; eauto.
Qed.

Lemma quora_add_seen st q :
  is_Some ((quora_add st q).2 !! q) /\
  forall key, is_Some (st.2 !! key) -> is_Some ((quora_add st q).2 !! key).
Proof.
  destruct st as [c sn]. unfold quora_add.
  destruct (sn !! q) as [v|] eqn:Hq; simpl.
  - split; [rewrite Hq; eauto|auto].
  - split; [rewrite lookup_insert_eq; eauto|].
    intros key Hkey. destruct (decide (q = key)) as [->|Hne].
    + rewrite lookup_insert_eq. eauto.
    + rewrite lookup_insert_ne by exact Hne. exact Hkey.
Qed.

Lemma quora_loop_total dataset :
  Forall (fun item => quora_complete item = true) dataset ->
  exists b, quora_loop dataset = Ok b.
Proof.
  intros Hall. unfold quora_loop.
  destruct (for_enumerate_total quora_body dataset) with (i := 0)
    (s := ([], [], ∅) : quora_state) as [[[qs c] sn] Hrun].
  - intros i item [[qs c] sn] Hin.
    rewrite Forall_forall in Hall. specialize (Hall _ Hin).
    unfold quora_complete in Hall. unfold quora_body.
    destruct item as [[[ids [[|q1 [|q2 rest]]|]]|] [dup|]]; try discriminate. simpl.
    destruct (quora_add_seen (quora_add (c, sn) q1) q2) as [[v2 Hv2] Hmono].
    destruct (Hmono q1 (proj1 (quora_add_seen (c, sn) q1))) as [v1 Hv1].
    destruct (quora_add (quora_add (c, sn) q1) q2) as [c' sn'].
    simpl in Hv1, Hv2. destruct dup; [|eauto].
    rewrite Hv1. simpl. rewrite Hv2. simpl. eauto.
  - rewrite Hrun. simpl. eauto.
Qed.

(** * NFCorpus *)

(** One turn of the loop: a row without ["corpus-id"] leaves the state
    as it is; a row with one yields a Query, and a Document if its ID is
    new. *)
Lemma nfcorpus_body_Ok i item queries corpus seen_docs st' :
  nfcorpus_body i item (queries, corpus, seen_docs) = Ok st' ->
  exists query,
    NFCorpus.query item = Some query /\
    match NFCorpus.corpus_id item with
    | None => st' = (queries, corpus, seen_docs)
    | Some corpus_id =>
        let doc_id := "nfcorpus-" +:+ corpus_id in
        exists corpus' seen',
          st' = (queries ++ [ {| qid := "nfcorpus-q-" +:+ pretty i;
                                 query := query;
                                 relevantDocs := [doc_id];
                                 relevanceScores := [f1_0];
                                 tags := ["medical"; "nfcorpus"] |} ],
                 corpus', seen') /\
          ((seen_docs !! doc_id = None /\
            seen' = <[doc_id := true]> seen_docs /\
            corpus' = corpus ++ [ {| did := doc_id;
                                     content := default ("Document " +:+ doc_id)
                                                        (NFCorpus.corpus_text item);
                                     metadata := [("medical", SBool true)] |} ])
           \/
           (is_Some (seen_docs !! doc_id) /\ seen' = seen_docs /\ corpus' = corpus))
    end.
Proof.
  unfold nfcorpus_body. intros H.
  destruct item as [q cid txt]; simpl in *.
  destruct q as [q|]; [|discriminate]. simpl in H.
  exists q. split; [reflexivity|].
  destruct cid as [cid|].
  - destruct (seen_docs !! ("nfcorpus-" +:+ cid)) as [b|] eqn:Hseen;
      simpl in H; inversion H; subst st'; eauto 10.
  - inversion H; reflexivity.
Qed.

Lemma nfcorpus_loop_inv dataset queries corpus :
  nfcorpus_loop dataset = Ok (queries, corpus) ->
  exists seen_docs, nfcorpus_inv dataset (queries, corpus, seen_docs).
Proof.
  unfold nfcorpus_loop. intros H.
  destruct (for_enumerate nfcorpus_body 0 dataset ([], [], ∅)) as [[[qs c] seen]|e] eqn:Hrun;
    [|discriminate].
  simpl in H. inversion H; subst qs c. exists seen.
  revert Hrun. apply for_enumerate_inv.
  - split; [constructor|]. split.
    { intros doc_id. rewrite lookup_empty. split; [intros [? ?]; discriminate|].
      intros Hin. inversion Hin. }
    split; [constructor|]. split.
    + intros i item cid Hi. discriminate.
    + intros q. split.
      * intros Hq. inversion Hq.
      * intros (i & item & _ & _ & Hi & _). discriminate.
  - intros pre x [[qs c] sn] s1 (Hnd & Hseen & Hndq & Hrel & Hqs) Hb.
    apply nfcorpus_body_Ok in Hb as (qu & Hqu & Hst).
    destruct (NFCorpus.corpus_id x) as [cid|] eqn:Hcid.
    + destruct Hst as (c' & sn' & -> & Hcase).
      assert (Hfresh : "nfcorpus-q-" +:+ pretty (length pre) ∉ qid <$> qs).
      { intros Hin. apply list_elem_of_fmap in Hin as (q & Hid & Hq).
        apply Hqs in Hq as (i & item & a & b & Hi & _ & _ & ->).
        simpl in Hid. apply fstring_nat_inj in Hid. apply lookup_lt_Some in Hi. lia. }
      assert (Hc' : NoDup (did <$> c') /\
                    (forall doc_id, is_Some (sn' !! doc_id) <-> doc_id ∈ did <$> c') /\
                    (forall doc_id, doc_id ∈ did <$> c -> doc_id ∈ did <$> c') /\
                    "nfcorpus-" +:+ cid ∈ did <$> c').
      { destruct Hcase as [(Hnone & -> & ->)|(Hsome & -> & ->)].
        - assert ("nfcorpus-" +:+ cid ∉ did <$> c) as Hnotin.
          { intros Hin. apply Hseen in Hin as [v Hv]. congruence. }
          rewrite fmap_app. simpl. split.
          { apply NoDup_app. split; [exact Hnd|]. split; [|apply NoDup_singleton].
            intros y Hy Hy1. apply list_elem_of_singleton in Hy1. subst y. contradiction. }
          split.
          { intros doc_id. rewrite elem_of_app, list_elem_of_singleton, <- Hseen.
            destruct (decide ("nfcorpus-" +:+ cid = doc_id)) as [<-|Hne].
            - rewrite lookup_insert_eq. split; eauto.
            - rewrite lookup_insert_ne by exact Hne. split; [auto|].
              intros [?|?]; [assumption|congruence]. }
          split.
          { intros doc_id Hin. apply elem_of_app. auto. }
          apply elem_of_app. right. apply list_elem_of_singleton. reflexivity.
        - split; [exact Hnd|]. split; [exact Hseen|]. split; [auto|].
          apply Hseen. exact Hsome. }
      destruct Hc' as (Hnd' & Hseen' & Hsub & Hnew).
      split; [exact Hnd'|]. split; [exact Hseen'|]. split.
      { rewrite fmap_app. simpl. apply NoDup_app. split; [exact Hndq|].
        split; [|apply NoDup_singleton].
        intros y Hy Hy1. apply list_elem_of_singleton in Hy1. subst y. contradiction. }
      split.
      { intros i item cid' Hi Hc.
        apply lookup_snoc_inv in Hi as [[_ Hi]|[-> ->]].
        - apply Hsub. eapply Hrel; eassumption.
        - assert (cid' = cid) as -> by congruence. exact Hnew. }
      intros q. rewrite elem_of_app, Hqs, list_elem_of_singleton. split.
      * intros [(i & item & a & b & Hi & Hrest)| ->].
        -- exists i, item, a, b. split; [|exact Hrest].
           apply lookup_app_l_Some. exact Hi.
        -- exists (length pre), x, qu, cid.
           split; [apply list_lookup_middle; reflexivity|]. repeat split; auto.
      * intros (i & item & a & b & Hi & Ha & Hb & ->).
        apply lookup_snoc_inv in Hi as [[_ Hi]|[-> ->]].
        -- left. exists i, item, a, b. repeat split; auto.
        -- right. assert (a = qu) as -> by congruence.
           assert (b = cid) as -> by congruence. reflexivity.
    + subst s1.
      split; [exact Hnd|]. split; [exact Hseen|]. split; [exact Hndq|]. split.
      { intros i item cid' Hi Hc.
        apply lookup_snoc_inv in Hi as [[_ Hi]|[-> ->]].
        - eapply Hrel; eassumption.
        - congruence. }
      intros q. rewrite Hqs. split.
      * intros (i & item & a & b & Hi & Hrest).
        exists i, item, a, b. split; [|exact Hrest].
        apply lookup_app_l_Some. exact Hi.
      * intros (i & item & a & b & Hi & Ha & Hb & ->).
        apply lookup_snoc_inv in Hi as [[_ Hi]|[-> ->]].
        -- exists i, item, a, b. repeat split; auto.
        -- congruence.
Qed.

Lemma nfcorpus_single_judgment dataset queries corpus :
  nfcorpus_loop dataset = Ok (queries, corpus) -> Forall (single_judgment corpus) queries.
Proof.
  intros H. apply nfcorpus_loop_inv in H as (seen & _ & _ & _ & Hrel & Hqs).
  apply Forall_forall. intros q Hq.
  apply Hqs in Hq as (i & item & qu & cid & Hi & _ & Hcid & ->).
  eexists _, _. repeat split. eapply Hrel; eassumption.
Qed.

Lemma nfcorpus_incomplete_raises item :
  NFCorpus.query item = None -> forall i st, exists e, nfcorpus_body i item st = Raise e.
Proof.
  intros H i [[qs c] seen]. unfold nfcorpus_body. rewrite H. simpl. eauto.
Qed.

Lemma nfcorpus_loop_total dataset :
  Forall (fun item => is_Some (NFCorpus.query item)) dataset ->
  exists b, nfcorpus_loop dataset = Ok b.
Proof.
  intros Hall. unfold nfcorpus_loop.
  destruct (for_enumerate_total nfcorpus_body dataset) with (i := 0)
    (s := ([], [], ∅) : nfcorpus_state) as [[[qs c] sn] Hrun].
  - intros i item [[qs c] sn] Hin.
    rewrite Forall_forall in Hall. destruct (Hall _ Hin) as [qu Hqu].
    unfold nfcorpus_body. rewrite Hqu. simpl.
    destruct (NFCorpus.corpus_id item) as [cid|]; [|eauto].
    destruct (sn !! ("nfcorpus-" +:+ cid)); simpl; eauto.
  - rewrite Hrun. simpl. eauto.
Qed.


(** * Output batches *)

Lemma single_judgment_batch queries corpus :
  Forall (single_judgment corpus) queries ->
  referential_integrity (queries, corpus) /\ aligned (queries, corpus) /\
  answerable (queries, corpus).
Proof.
  intros H. unfold referential_integrity, aligned, answerable; simpl.
  repeat split; eapply Forall_impl; try exact H;
    intros q (doc_id & s & Hr & Hs & Hin); simpl; rewrite Hr.
  - constructor; [exact Hin|constructor].
  - rewrite Hs. reflexivity.
  - discriminate.
Qed.

Lemma sample_batch_checked :
  referential_integrity sample_batch /\ aligned sample_batch /\
  answerable sample_batch /\ unique_ids sample_batch.
Proof.
  repeat split; apply (bool_decide_unpack _); vm_compute; exact I.
Qed.

Lemma output_batch_cases b :
  output_batch b ->
  b = sample_batch \/ Forall (single_judgment b.2) b.1.
Proof.
  intros [|ds [qs c] H|ds [qs c] H|ds [qs c] H|ds [qs c] H]; [left; reflexivity|right..]; simpl.
  - eapply sts17_single_judgment; eassumption.
  - eapply squad_single_judgment; eassumption.
  - eapply quora_single_judgment; eassumption.
  - eapply nfcorpus_single_judgment; eassumption.
Qed.

Lemma output_batch_unique_ids b : output_batch b -> unique_ids b.
Proof.
  intros [|ds [qs c] H|ds [qs c] H|ds [qs c] H|ds [qs c] H]; unfold unique_ids; simpl.
  - apply sample_batch_checked.
  - apply sts17_positional in H as [Hd Hq].
    split; eapply NoDup_positional; eassumption.
  - apply squad_positional in H as [Hd Hq].
    split; eapply NoDup_positional; eassumption.
  - apply quora_loop_inv in H as (seen & Hd & Hnd & _).
    split; [eapply dedup_inv_ids; eassumption|exact Hnd].
  - apply nfcorpus_loop_inv in H as (seen & Hnd & _ & Hndq & _).
    split; assumption.
Qed.

(** * The adapters as a whole *)

Lemma download_mteb_sts17_shape w :
  download_mteb_sts17 w =
  fetch_normalise_write w (hub_sts17 w) sts17_loop "datasets/mteb"
    "datasets/mteb/sts17-en-en-queries.jsonl" "datasets/mteb/sts17-en-en-corpus.jsonl".
Proof. reflexivity. Qed.

Lemma download_squad_sample_shape w :
  download_squad_sample w =
  fetch_normalise_write w (hub_squad w) squad_loop "datasets/squad"
    "datasets/squad/queries.jsonl" "datasets/squad/corpus.jsonl".
Proof. reflexivity. Qed.

Lemma download_quora_sample_shape w :
  download_quora_sample w =
  fetch_normalise_write w (hub_quora w) quora_loop "datasets/quora"
    "datasets/quora/queries.jsonl" "datasets/quora/corpus.jsonl".
Proof. reflexivity. Qed.

Lemma download_nfcorpus_sample_shape w :
  download_nfcorpus_sample w =
  fetch_normalise_write w (hub_nfcorpus w) nfcorpus_loop "datasets/nfcorpus"
    "datasets/nfcorpus/queries.jsonl" "datasets/nfcorpus/corpus.jsonl".
Proof. reflexivity. Qed.

(** Every way such an adapter can run. *)
Lemma fetch_normalise_write_run {X} w (hub : result (list X)) loop dir qpath cpath fs :
  fetch_normalise_write w hub loop dir qpath cpath fs =
  match hub with
  | Raise _ => (Ok false, fs)
  | Ok dataset =>
      match loop dataset with
      | Raise _ => (Ok false, fs)
      | Ok (queries, corpus) =>
          if mkdir_ok w dir then
            if write_ok w qpath then
              if write_ok w cpath then
                (Ok true, <[cpath := DocumentLines corpus]>
                            (<[qpath := QueryLines queries]> fs))
              else (Ok false, <[qpath := QueryLines queries]> fs)
            else (Ok false, fs)
          else (Ok false, fs)
      end
  end.
Proof.
  unfold fetch_normalise_write, try_except, mbind, io_bind, pure, ensure_dir, save_jsonl.
  destruct hub as [ds|e]; [|reflexivity].
  destruct (loop ds) as [[qs c]|e]; [|reflexivity].
  destruct (mkdir_ok w dir); [|reflexivity].
  destruct (write_ok w qpath); [|reflexivity].
  destruct (write_ok w cpath); reflexivity.
Qed.

(** A downloading adapter always returns a boolean. *)
Lemma fetch_normalise_write_returns {X} w (hub : result (list X)) loop dir qpath cpath fs :
  exists r fs', fetch_normalise_write w hub loop dir qpath cpath fs = (Ok r, fs').
Proof.
  rewrite fetch_normalise_write_run.
  destruct hub as [ds|e]; [|eauto].
  destruct (loop ds) as [[qs c]|e]; [|eauto].
  destruct (mkdir_ok w dir); [|eauto].
  destruct (write_ok w qpath); [|eauto].
  destruct (write_ok w cpath); eauto.
Qed.


(** When the loop raises, it returns [False] and writes nothing. *)
Lemma fetch_normalise_write_raise {X} w (dataset : list X) loop dir qpath cpath fs e :
  loop dataset = Raise e ->
  fetch_normalise_write w (Ok dataset) loop dir qpath cpath fs = (Ok false, fs).
Proof. intros H. rewrite fetch_normalise_write_run, H. reflexivity. Qed.

Lemma create_sample_dataset_run w fs :
  create_sample_dataset w fs =
  if mkdir_ok w "datasets/sample" then
    if write_ok w "datasets/sample/queries.jsonl" then
      if write_ok w "datasets/sample/corpus.jsonl" then
        (Ok true, <["datasets/sample/corpus.jsonl" := DocumentLines sample_corpus]>
                    (<["datasets/sample/queries.jsonl" := QueryLines sample_queries]> fs))
      else (Raise (OSError "datasets/sample/corpus.jsonl"),
            <["datasets/sample/queries.jsonl" := QueryLines sample_queries]> fs)
    else (Raise (OSError "datasets/sample/queries.jsonl"), fs)
  else (Raise (OSError "datasets/sample"), fs).
Proof.
  unfold create_sample_dataset, mbind, io_bind, ensure_dir, save_jsonl.
  destruct (mkdir_ok w "datasets/sample"); [|reflexivity].
  destruct (write_ok w "datasets/sample/queries.jsonl"); [|reflexivity].
  destruct (write_ok w "datasets/sample/corpus.jsonl"); reflexivity.
Qed.

(** The tally at the end of [main]. *)
Lemma main_tally (r1 r2 r3 r4 r5 : bool) :
  let results : gmap string bool :=
    <["nfcorpus" := r5]> (<["quora" := r4]> (<["squad" := r3]>
      (<["sts17" := r2]> (<["sample" := r1]> ∅)))) in
  bool_decide (length (filter (fun s => s = true) (map_to_list results).*2) = size results)
  = r1 && r2 && r3 && r4 && r5.
Proof. destruct r1, r2, r3, r4, r5; vm_compute; reflexivity. Qed.

(** [main] runs the adapters in order, each on the files left by the
    one before, and stops at the first exception that reaches it. *)
Lemma main_run w fs :
  main w fs =
  match create_sample_dataset w fs with
  | (Raise e, fs1) => (Raise e, fs1)
  | (Ok r1, fs1) =>
      match download_mteb_sts17 w fs1 with
      | (Raise e, fs2) => (Raise e, fs2)
      | (Ok r2, fs2) =>
          match download_squad_sample w fs2 with
          | (Raise e, fs3) => (Raise e, fs3)
          | (Ok r3, fs3) =>
              match download_quora_sample w fs3 with
              | (Raise e, fs4) => (Raise e, fs4)
              | (Ok r4, fs4) =>
                  match download_nfcorpus_sample w fs4 with
                  | (Raise e, fs5) => (Raise e, fs5)
                  | (Ok r5, fs5) => (Ok (r1 && r2 && r3 && r4 && r5), fs5)
                  end
              end
          end
      end
  end.
Proof.
  unfold main, mbind, io_bind, mret, io_ret.
  destruct (create_sample_dataset w fs) as [[r1|e] fs1]; [|reflexivity].
  destruct (download_mteb_sts17 w fs1) as [[r2|e] fs2]; [|reflexivity].
  destruct (download_squad_sample w fs2) as [[r3|e] fs3]; [|reflexivity].
  destruct (download_quora_sample w fs3) as [[r4|e] fs4]; [|reflexivity].
  destruct (download_nfcorpus_sample w fs4) as [[r5|e] fs5]; [|reflexivity].
  rewrite main_tally. reflexivity.
Qed.

(** The four downloading adapters never let an exception out. *)
Lemma downloads_return w fs :
  (exists r fs', download_mteb_sts17 w fs = (Ok r, fs')) /\
  (exists r fs', download_squad_sample w fs = (Ok r, fs')) /\
  (exists r fs', download_quora_sample w fs = (Ok r, fs')) /\
  (exists r fs', download_nfcorpus_sample w fs = (Ok r, fs')).
Proof.
  rewrite download_mteb_sts17_shape, download_squad_sample_shape,
    download_quora_sample_shape, download_nfcorpus_sample_shape.
  repeat split; apply fetch_normalise_write_returns.
Qed.



(** * Floating point: dividing by [5.0] *)

Section Binary64.
Local Open Scope Z_scope.

Lemma digits2_pos_bounds (p : positive) :
  2 ^ (Zpos (digits2_pos p) - 1) <= Zpos p < 2 ^ Zpos (digits2_pos p).
Proof.
  induction p as [p IH|p IH|]; simpl digits2_pos.
  - rewrite Pos2Z.inj_succ.
    replace (Z.succ (Zpos (digits2_pos p)) - 1) with (Z.succ (Zpos (digits2_pos p) - 1)) by lia.
    rewrite !Z.pow_succ_r by lia. lia.
  - rewrite Pos2Z.inj_succ.
    replace (Z.succ (Zpos (digits2_pos p)) - 1) with (Z.succ (Zpos (digits2_pos p) - 1)) by lia.
    rewrite !Z.pow_succ_r by lia. lia.
  - simpl. lia.
Qed.

(** A non-negative number below [2^k] has at most [k] binary digits. *)
Lemma Zdigits2_le m k : 0 <= m -> 0 <= k -> m < 2 ^ k -> Zdigits2 m <= k.
Proof.
  intros Hm Hk Hlt. destruct m as [|p|p]; simpl; [lia| |lia].
  destruct (digits2_pos_bounds p) as [Hlo _].
  destruct (Z_le_gt_dec (Zpos (digits2_pos p)) k) as [|Hgt]; [assumption|exfalso].
  assert (2 ^ k <= 2 ^ (Zpos (digits2_pos p) - 1)) by (apply Z.pow_le_mono_r; lia).
  lia.
Qed.

Lemma Zdigits2_pow2 k : 0 <= k -> Zdigits2 (2 ^ k) = k + 1.
Proof.
  intros Hk. assert (0 < 2 ^ k) as Hpos by (apply Z.pow_pos_nonneg; lia).
  destruct (2 ^ k) as [|p|p] eqn:Hp; [lia| |lia]. simpl.
  destruct (digits2_pos_bounds p) as [Hlo Hhi]. rewrite <- Hp in Hlo, Hhi.
  apply Z.pow_le_mono_r_iff in Hlo; [|lia|lia].
  apply Z.pow_lt_mono_r_iff in Hhi; lia.
Qed.

Lemma pow2_xO p : 2 ^ Zpos p~0 = 2 ^ Zpos p * 2 ^ Zpos p.
Proof.
  rewrite (Pos2Z.inj_xO p). replace (2 * Zpos p) with (Zpos p + Zpos p) by lia.
  apply Z.pow_add_r; lia.
Qed.

Lemma pow2_xI p : 2 ^ Zpos p~1 = 2 * (2 ^ Zpos p * 2 ^ Zpos p).
Proof.
  rewrite (Pos2Z.inj_xI p), Z.add_comm. rewrite (Z.pow_add_r 2 1 (2 * Zpos p)) by lia.
  rewrite <- (Pos2Z.inj_xO p), pow2_xO. reflexivity.
Qed.

(** ** Shifting right *)

Lemma shr_1_m mrs : 0 <= shr_m mrs -> shr_m (shr_1 mrs) = shr_m mrs / 2.
Proof.
  destruct mrs as [m r s]. simpl. intros Hm.
  rewrite <- Z.div2_div. destruct m as [|[p|p|]|p]; try reflexivity; lia.
Qed.

Lemma shr_1_even k : 0 <= k ->
  shr_1 {| shr_m := 2 * k; shr_r := false; shr_s := false |}
  = {| shr_m := k; shr_r := false; shr_s := false |}.
Proof. intros Hk. destruct k as [|p|p]; [reflexivity|reflexivity|lia]. Qed.

Lemma iter_shr_1_m p : forall mrs,
  0 <= shr_m mrs ->
  shr_m (SpecFloat.iter_pos shr_1 p mrs) = shr_m mrs / 2 ^ Zpos p.
Proof.
  assert (Hdiv : forall a b c, 0 < b -> 0 < c -> a / b / c = a / (b * c)).
  { intros a b c Hb Hc. apply Z.div_div; lia. }
  assert (Hnn : forall mrs, 0 <= shr_m mrs -> 0 <= shr_m mrs / 2)
    by (intros; apply Z.div_pos; lia).
  induction p as [p IH|p IH|]; intros mrs Hm; cbn [SpecFloat.iter_pos].
  - assert (0 < 2 ^ Zpos p) as Hp by (apply Z.pow_pos_nonneg; lia).
    assert (H1 : 0 <= shr_m (shr_1 mrs)) by (rewrite shr_1_m by assumption; auto).
    assert (H2 : 0 <= shr_m (SpecFloat.iter_pos shr_1 p (shr_1 mrs))).
    { rewrite IH by assumption. apply Z.div_pos; lia. }
    rewrite IH by assumption. rewrite IH by assumption. rewrite shr_1_m by assumption.
    rewrite !Hdiv by lia. rewrite pow2_xI. reflexivity.
  - assert (0 < 2 ^ Zpos p) as Hp by (apply Z.pow_pos_nonneg; lia).
    assert (H2 : 0 <= shr_m (SpecFloat.iter_pos shr_1 p mrs)).
    { rewrite IH by assumption. apply Z.div_pos; lia. }
    rewrite IH by assumption. rewrite IH by assumption.
    rewrite !Hdiv by lia. rewrite pow2_xO. reflexivity.
  - rewrite shr_1_m by assumption. reflexivity.
Qed.

Lemma iter_shr_1_exact p : forall k, 0 <= k ->
  SpecFloat.iter_pos shr_1 p {| shr_m := k * 2 ^ Zpos p; shr_r := false; shr_s := false |}
  = {| shr_m := k; shr_r := false; shr_s := false |}.
Proof.
  induction p as [p IH|p IH|]; intros k Hk; cbn [SpecFloat.iter_pos].
  - assert (0 < 2 ^ Zpos p) as Hp by (apply Z.pow_pos_nonneg; lia).
    replace (k * 2 ^ Zpos p~1) with (2 * ((k * 2 ^ Zpos p) * 2 ^ Zpos p)).
    + rewrite shr_1_even by nia. rewrite IH by nia. apply IH. assumption.
    + rewrite pow2_xI. ring.
  - assert (0 < 2 ^ Zpos p) as Hp by (apply Z.pow_pos_nonneg; lia).
    replace (k * 2 ^ Zpos p~0) with ((k * 2 ^ Zpos p) * 2 ^ Zpos p).
    + rewrite IH by nia. apply IH. assumption.
    + rewrite pow2_xO. ring.
  - rewrite Z.pow_1_r, Z.mul_comm. apply shr_1_even. assumption.
Qed.

Lemma shr_record_of_loc_m m l : shr_m (shr_record_of_loc m l) = m.
Proof. destruct l as [|[]]; reflexivity. Qed.

Section Rounding.
Variables prec emax : Z.

(** [shr_fexp] moves the exponent up to [fexp] of the magnitude and
    divides the mantissa accordingly. *)
Lemma shr_fexp_m m e l :
  0 <= m ->
  let e' := Z.max e (fexp prec emax (Zdigits2 m + e)) in
  snd (shr_fexp prec emax m e l) = e' /\
  shr_m (fst (shr_fexp prec emax m e l)) = m / 2 ^ (e' - e).
Proof.
  intros Hm e'. unfold shr_fexp, shr. subst e'.
  destruct (fexp prec emax (Zdigits2 m + e) - e) as [|p|p] eqn:Hn; simpl.
  - rewrite shr_record_of_loc_m. replace (Z.max _ _ - e) with 0 by lia.
    rewrite Z.pow_0_r, Z.div_1_r. split; lia.
  - rewrite iter_shr_1_m by (rewrite shr_record_of_loc_m; assumption).
    rewrite shr_record_of_loc_m.
    replace (Z.max _ _ - e) with (Zpos p) by lia. split; lia.
  - rewrite shr_record_of_loc_m. replace (Z.max _ _ - e) with 0 by lia.
    rewrite Z.pow_0_r, Z.div_1_r. split; lia.
Qed.

(** On an exact power of two nothing is lost. *)
Lemma shr_fexp_pow2 k e :
  0 <= k ->
  let n := fexp prec emax (k + 1 + e) - e in
  0 <= n <= k ->
  shr_fexp prec emax (2 ^ k) e loc_Exact
  = ({| shr_m := 2 ^ (k - n); shr_r := false; shr_s := false |}, e + n).
Proof.
  intros Hk n Hn. unfold shr_fexp, shr. rewrite Zdigits2_pow2 by assumption.
  fold n. simpl shr_record_of_loc.
  destruct n as [|p|p] eqn:Hp; [| |lia].
  - rewrite Z.sub_0_r, Z.add_0_r. reflexivity.
  - replace (2 ^ k) with (2 ^ (k - Zpos p) * 2 ^ Zpos p)
      by (rewrite <- Z.pow_add_r by lia; f_equal; lia).
    rewrite iter_shr_1_exact by (apply Z.pow_nonneg; lia). reflexivity.
Qed.
End Rounding.

Lemma round_nearest_even_bounds m l :
  m <= round_nearest_even m l <= m + 1.
Proof. destruct l as [|[]]; simpl; try lia. destruct (Z.even m); lia. Qed.

(** ** Binary64 *)

Lemma fexp64 x : fexp 53 1024 x = Z.max (x - 53) (-1074).
Proof. reflexivity. Qed.

(** Rounding [q * 2^e], known to lie in [[0, 1]], gives a float in
    [[0.0, 1.0]]: the location [l] may round up only when the value is
    strictly below one. *)
Lemma binary_round_aux_unit q e l :
  0 <= q -> e <= -53 -> q <= 2 ^ (- e) -> (q = 2 ^ (- e) -> l = loc_Exact) ->
  SFleb f0_0 (binary_round_aux 53 1024 false q e l) = true /\
  SFleb (binary_round_aux 53 1024 false q e l) f1_0 = true.
Proof.
  intros Hq He Hle Hexact.
  assert (Hone : forall e1 m1, e1 <= -53 -> m1 = 2 ^ (- e1) ->
            shr_fexp 53 1024 m1 e1 loc_Exact
            = ({| shr_m := 4503599627370496; shr_r := false; shr_s := false |}, -52)).
  { intros e1 m1 He1 ->.
    pose proof (shr_fexp_pow2 53 1024 (- e1) e1) as H. cbv zeta in H.
    replace (- e1 + 1 + e1) with 1 in H by lia. rewrite fexp64 in H.
    rewrite H by lia. f_equal; [|lia].
    replace (- e1 - (Z.max (1 - 53) (-1074) - e1)) with 52 by lia. reflexivity. }
  unfold binary_round_aux.
  destruct (Z.eq_dec q (2 ^ (- e))) as [Heq|Hne].
  - (* the value is exactly one *)
    rewrite (Hexact Heq). rewrite (Hone e q He Heq).
    cbn [shr_m loc_of_shr_record round_nearest_even].
    change (shr_fexp 53 1024 4503599627370496 (-52) loc_Exact)
      with ({| shr_m := 4503599627370496; shr_r := false; shr_s := false |}, -52).
    split; reflexivity.
  - (* the value is below one *)
    assert (Hlt : q < 2 ^ (- e)) by lia.
    destruct (shr_fexp_m 53 1024 q e l Hq) as [He1 Hm1].
    destruct (shr_fexp 53 1024 q e l) as [mrs1 e1]. cbn [fst snd] in He1, Hm1.
    rewrite <- He1 in Hm1.
    assert (Hd : Zdigits2 q <= - e) by (apply Zdigits2_le; lia).
    rewrite fexp64 in He1.
    assert (He1' : e1 <= -53) by lia.
    assert (He1e : e <= e1) by lia.
    assert (Hp1 : 0 < 2 ^ (e1 - e)) by (apply Z.pow_pos_nonneg; lia).
    assert (Hma : 0 <= shr_m mrs1 < 2 ^ (- e1)).
    { rewrite Hm1. split; [apply Z.div_pos; lia|].
      apply Z.div_lt_upper_bound; [assumption|].
      rewrite <- Z.pow_add_r by lia. replace (e1 - e + - e1) with (- e) by lia.
      assumption. }
    pose proof (round_nearest_even_bounds (shr_m mrs1) (loc_of_shr_record mrs1)) as Hr.
    set (m1 := round_nearest_even (shr_m mrs1) (loc_of_shr_record mrs1)) in *.
    destruct (Z.eq_dec m1 (2 ^ (- e1))) as [Heq1|Hne1].
    + rewrite (Hone e1 m1 He1' Heq1). split; reflexivity.
    + assert (Hm1nn : 0 <= m1) by lia.
      destruct (shr_fexp_m 53 1024 m1 e1 loc_Exact Hm1nn) as [He2 Hm2].
      destruct (shr_fexp 53 1024 m1 e1 loc_Exact) as [mrs2 e2]. cbn [fst snd] in He2, Hm2.
      rewrite <- He2 in Hm2.
      assert (Hd1 : Zdigits2 m1 <= - e1) by (apply Zdigits2_le; lia).
      rewrite fexp64 in He2.
      assert (He2' : e2 <= -53) by lia.
      assert (0 <= shr_m mrs2).
      { rewrite Hm2. apply Z.div_pos; [lia|]. apply Z.pow_pos_nonneg; lia. }
      destruct (shr_m mrs2) as [|p|p]; [split; reflexivity| |lia].
      replace (e2 <=? 1024 - 53) with true by (symmetry; apply Z.leb_le; lia).
      split; [reflexivity|].
      unfold SFleb, SFcompare, f1_0.
      replace (e2 ?= -52) with Lt by (symmetry; apply Z.compare_lt_iff; lia).
      reflexivity.
Qed.

(** The quotient of a float in [(0, 5]] by [5.0], before rounding: a
    mantissa [q] and an exponent [e'] with [q * 2^e' <= 1], the location
    being exact when the bound is reached. *)
Lemma div5_core m e :
  bounded 53 1024 m e = true ->
  e < -50 \/ (e = -50 /\ Zpos m <= 5629499534213120) ->
  let '(q, e', l) := SFdiv_core_binary 53 1024 (Zpos m) e 5629499534213120 (-50) in
  0 <= q /\ e' <= -53 /\ q <= 2 ^ (- e') /\ (q = 2 ^ (- e') -> l = loc_Exact).
Proof.
  intros Hb Hle.
  unfold bounded, canonical_mantissa in Hb.
  apply andb_true_iff in Hb as [Hcan _]. apply Z.eqb_eq in Hcan.
  rewrite fexp64 in Hcan.
  pose proof (digits2_pos_bounds m) as [_ Hm].
  set (d := Zpos (digits2_pos m)) in *.
  assert (Hd : 1 <= d <= 53) by lia.
  assert (Hm53 : Zpos m < 2 ^ 53).
  { eapply Z.lt_le_trans; [exact Hm|]. apply Z.pow_le_mono_r; lia. }
  unfold SFdiv_core_binary.
  change (Zdigits2 (Zpos m)) with d.
  change (Zdigits2 5629499534213120) with 53.
  rewrite fexp64.
  set (e' := Z.min (Z.max (d + e - (53 + -50) - 53) (-1074)) (e - -50)).
  assert (He' : e' <= -53) by lia.
  assert (Hs : 0 <= e - -50 - e') by lia.
  set (s := e - -50 - e') in *.
  assert (Hm' : match s with
                | 0 => Zpos m
                | Zpos _ => Z.shiftl (Zpos m) s
                | Zneg _ => 0
                end = Zpos m * 2 ^ s).
  { destruct s as [|p|p] eqn:Hsp; [rewrite Z.pow_0_r; lia| |lia].
    apply Z.shiftl_mul_pow2. lia. }
  rewrite Hm'.
  pose proof (Z_div_mod (Zpos m * 2 ^ s) 5629499534213120 eq_refl) as Hdiv.
  destruct (Z.div_eucl (Zpos m * 2 ^ s) 5629499534213120) as [q r].
  destruct Hdiv as [Hqr Hr].
  (* the dividend is at most [5 * 2^50 * 2^(-e')] *)
  assert (Hps : 0 < 2 ^ s) by (apply Z.pow_pos_nonneg; lia).
  assert (Hbound : Zpos m * 2 ^ s <= 5629499534213120 * 2 ^ (- e')).
  { replace (- e') with ((-50 - e) + s) by lia.
    rewrite Z.pow_add_r by lia. rewrite Z.mul_assoc.
    apply Z.mul_le_mono_nonneg_r; [lia|].
    destruct Hle as [Hlt|[-> Hmle]].
    - assert (2 ^ 1 <= 2 ^ (-50 - e)) by (apply Z.pow_le_mono_r; lia).
      change (2 ^ 1) with 2 in *. change (2 ^ 53) with 9007199254740992 in Hm53. lia.
    - change (-50 - -50) with 0. rewrite Z.pow_0_r. lia. }
  assert (Hpe : 0 < 2 ^ (- e')) by (apply Z.pow_pos_nonneg; lia).
  assert (Hq0 : 0 <= q) by nia.
  assert (Hq1 : q <= 2 ^ (- e')) by nia.
  split; [exact Hq0|]. split; [exact He'|]. split; [exact Hq1|].
  intros Heq.
  assert (r = 0) as -> by nia.
  reflexivity.
Qed.

(** [<=] between positive finite floats: exponents first, then
    mantissas. *)
Lemma SFleb_finite_inv m e m' e' :
  SFleb (S754_finite false m e) (S754_finite false m' e') = true ->
  e < e' \/ (e = e' /\ Zpos m <= Zpos m').
Proof.
  unfold SFleb, SFcompare. intros H.
  destruct (e ?= e') eqn:Hc.
  - apply Z.compare_eq_iff in Hc. right. split; [exact Hc|].
    change (Pos.compare_cont Eq m m') with (Pos.compare m m') in H.
    destruct (Pos.compare m m') eqn:Hm; try discriminate.
    + apply Pos.compare_eq_iff in Hm. rewrite Hm. apply Z.le_refl.
    + apply Pos.compare_lt_iff in Hm. apply Z.lt_le_incl. exact Hm.
  - apply Z.compare_lt_iff in Hc. left. exact Hc.
  - discriminate.
Qed.

(** Dividing a float of [[0, 5]] by [5.0] gives a float of [[0, 1]]. *)
Theorem div5_range x :
  valid_binary 53 1024 x = true ->
  SFleb f0_0 x = true -> SFleb x f5_0 = true ->
  SFleb f0_0 (SFdiv 53 1024 x f5_0) = true /\
  SFleb (SFdiv 53 1024 x f5_0) f1_0 = true.
Proof.
  intros Hv H0 H5.
  destruct x as [s|s| |s m e].
  - destruct s; split; reflexivity.
  - destruct s; discriminate.
  - discriminate.
  - destruct s; [discriminate|].
    pose proof (div5_core m e Hv (SFleb_finite_inv m e _ _ H5)) as Hcore.
    unfold SFdiv, f5_0.
    destruct (SFdiv_core_binary 53 1024 (Zpos m) e 5629499534213120 (-50)) as [[q e'] l].
    destruct Hcore as (Hq0 & He' & Hq1 & Hex).
    change (xorb false false) with false.
    apply binary_round_aux_unit; assumption.
Qed.

End Binary64.

(** * The properties stated by the specification *)

(** C1 (referential integrity). In the batch of every adapter (sample,
    sts17, squad, quora, nfcorpus), every ID listed in the
    [relevantDocs] of a Query is the ID of a Document of the corpus of
    the same batch. *)
Theorem C1_referential_integrity (b : batch) :
  output_batch b -> referential_integrity b.
Proof.
  intros H. destruct (output_batch_cases b H) as [->|Hs].
  - apply sample_batch_checked.
  - destruct b as [qs c]. apply (single_judgment_batch qs c Hs).
Qed.

Lemma C1_referential_integrity_witness :
  output_batch squad_example_batch /\ referential_integrity squad_example_batch.
Proof.
  assert (H : output_batch squad_example_batch).
  { apply (out_squad squad_example). vm_compute. reflexivity. }
  split; [exact H|]. exact (C1_referential_integrity squad_example_batch H).
Defined.

(** C2 (dedup). In the SQuAD and Quora adapters, whose dedup key is the
    text itself: one turn of the loop on a text that is not in the table
    appends one Document holding it and inserts the text with the new
    ID; on a text that is in the table it reuses the stored ID and
    leaves corpus and table alone. So in the batch there is exactly one
    Document for a text that occurs in the rows, and the Query of every
    row that refers to this text lists the ID of that Document and
    nothing else. *)
Theorem C2_dedup_single_document :
  (forall i item queries corpus seen st' text,
     squad_body i item (queries, corpus, seen) = Ok st' ->
     SQuAD.context item = Some text ->
     exists doc_id q,
       st'.1.1 = queries ++ [q] /\ relevantDocs q = [doc_id] /\
       match seen !! text with
       | Some stored => doc_id = stored /\ st'.1.2 = corpus /\ st'.2 = seen
       | None =>
           exists d, st'.1.2 = corpus ++ [d] /\ did d = doc_id /\ content d = text /\
                     st'.2 = <[text := doc_id]> seen
       end) /\
  (forall corpus seen q,
     match seen !! q with
     | Some _ => quora_add (corpus, seen) q = (corpus, seen)
     | None =>
         exists d, quora_add (corpus, seen) q = (corpus ++ [d], <[q := did d]> seen) /\
                   content d = q
     end) /\
  (forall dataset queries corpus text,
     squad_loop dataset = Ok (queries, corpus) ->
     (exists i item, dataset !! i = Some item /\ SQuAD.context item = Some text) ->
     exists d,
       filter (fun d' => content d' = text) corpus = [d] /\
       forall i item,
         dataset !! i = Some item -> SQuAD.context item = Some text ->
         exists q, queries !! i = Some q /\ relevantDocs q = [did d]) /\
  (forall dataset queries corpus text,
     quora_loop dataset = Ok (queries, corpus) ->
     (exists i item questions q1 q2 rest,
        dataset !! i = Some item /\ Quora.questions item = Some questions /\
        Quora.text questions = Some (q1 :: q2 :: rest) /\ (text = q1 \/ text = q2)) ->
     exists d,
       filter (fun d' => content d' = text) corpus = [d] /\
       forall i item questions q1 rest,
         dataset !! i = Some item -> Quora.questions item = Some questions ->
         Quora.text questions = Some (q1 :: text :: rest) ->
         Quora.is_duplicate item = Some true ->
         exists q, q ∈ queries /\ qid q = "quora-pair-" +:+ pretty i /\
                   relevantDocs q = [did d]).
Proof.
  split; [|split; [|split]].
  - intros i item qs c seen st' text Hb Hctx.
    apply squad_body_Ok in Hb
      as (ctx & qu & doc_id & c' & sn' & Hctx' & _ & -> & Hcase).
    assert (ctx = text) as -> by congruence. simpl.
    eexists doc_id, _. split; [reflexivity|]. split; [reflexivity|].
    destruct Hcase as [(Hnone & -> & -> & t & _ & ->)|(Hsome & -> & ->)].
    + rewrite Hnone. eexists. repeat split.
    + rewrite Hsome. auto.
  - intros c seen q. unfold quora_add.
    destruct (seen !! q); [reflexivity|].
    exists {| did := "quora-q-" +:+ pretty (size seen); content := q; metadata := [] |}.
    split; reflexivity.
  - intros ds qs c text H (i0 & item0 & Hi0 & Hc0).
    apply squad_loop_inv in H as (seen & Hd & Hlen & Hrows).
    destruct (Hrows i0 item0 Hi0) as (ctx & qu & doc_id & Hctx & _ & Hseen & _).
    assert (ctx = text) as -> by congruence.
    destruct (dedup_inv_filter _ _ _ _ _ Hd Hseen) as (d & Hf & Hid).
    exists d. split; [exact Hf|].
    intros i item Hi Hc.
    destruct (Hrows i item Hi) as (ctx' & qu' & doc_id' & Hctx' & _ & Hseen' & Hq).
    assert (ctx' = text) as -> by congruence.
    assert (doc_id' = doc_id) as -> by congruence.
    eexists. split; [exact Hq|]. simpl. congruence.
  - intros ds qs c text H (i0 & item0 & qt0 & a0 & b0 & r0 & Hi0 & Hqt0 & Htxt0 & Hor).
    apply quora_loop_inv in H as (seen & Hd & _ & Hrows & Hqs).
    assert (is_Some (seen !! text)) as [doc_id Hseen].
    { destruct (Hrows i0 item0 Hi0) as (qt & a & b & r & dup & Hqt & Htxt & _ & Ha & Hb).
      assert (qt = qt0) as -> by congruence.
      assert (a = a0 /\ b = b0) as [-> ->] by (split; congruence).
      destruct Hor as [->| ->]; assumption. }
    destruct (dedup_inv_filter _ _ _ _ _ Hd Hseen) as (d & Hf & Hid).
    exists d. split; [exact Hf|].
    intros i item qt q1 rest Hi Hqt Htxt Hdup.
    exists {| qid := "quora-pair-" +:+ pretty i; query := q1;
              relevantDocs := [doc_id]; relevanceScores := [f1_0];
              tags := ["duplicate"; "quora"] |}.
    split; [|split; [reflexivity|]].
    + apply Hqs. exists i, item, qt, q1, text, rest, doc_id. repeat split; eauto.
    + simpl. rewrite Hid. reflexivity.
Qed.

Lemma C2_dedup_single_document_witness :
  exists d,
    filter (fun d' => content d' = "same text") squad_example_batch.2 = [d] /\
    forall i item,
      squad_example !! i = Some item -> SQuAD.context item = Some "same text" ->
      exists q, squad_example_batch.1 !! i = Some q /\ relevantDocs q = [did d].
Proof.
  destruct C2_dedup_single_document as (_ & _ & Hsquad & _).
  apply (Hsquad squad_example).
  - vm_compute. reflexivity.
  - exists 0, {| SQuAD.context := Some "same text"; SQuAD.title := Some "t";
                 SQuAD.question := Some "who?" |}.
    split; reflexivity.
Defined.

(** C3 as stated fails on the NFCorpus adapter: a row without
    ["corpus-id"] is skipped without any error, and a row without
    ["corpus-text"] gets a default content; the adapter reports
    success and writes both files. *)
Lemma C3_counterexample :
  (exists item, nfcorpus_sparse !! 0 = Some item /\ NFCorpus.corpus_id item = None) /\
  (exists item, nfcorpus_sparse !! 1 = Some item /\ NFCorpus.corpus_text item = None) /\
  (download_nfcorpus_sample w_nfcorpus_sparse ∅).1 = Ok true /\
  (download_nfcorpus_sample w_nfcorpus_sparse ∅).2 !! "datasets/nfcorpus/queries.jsonl"
  = Some (QueryLines
            [ {| qid := "nfcorpus-q-1"; query := "q";
                 relevantDocs := ["nfcorpus-MED-1"]; relevanceScores := [f1_0];
                 tags := ["medical"; "nfcorpus"] |} ]) /\
  (download_nfcorpus_sample w_nfcorpus_sparse ∅).2 !! "datasets/nfcorpus/corpus.jsonl"
  = Some (DocumentLines
            [ {| did := "nfcorpus-MED-1"; content := "Document nfcorpus-MED-1";
                 metadata := [("medical", SBool true)] |} ]).
Proof.
  split; [eexists; split; reflexivity|].
  split; [eexists; split; reflexivity|].
  repeat split; vm_compute; reflexivity.
Qed.

(** C3, amended (fail fast on the fields an adapter reads by index).
    A row that lacks a column the loop reads with [item[...]] makes the
    adapter return [False] and write nothing: [sentence1], [score] or
    [sentence2] for STS-17; [context] or [question] for SQuAD, and
    [title] on the first row that has a given context; [questions], its
    [text] with two entries, or [is_duplicate] for Quora; [query] for
    NFCorpus. The NFCorpus adapter treats ["corpus-id"] and
    ["corpus-text"] as optional: a row without ["corpus-id"] leaves
    queries, corpus and table as they are, and a new Document whose row
    has no ["corpus-text"] gets the content ["Document {doc_id}"]. *)
Theorem C3_missing_field :
  (forall w fs dataset item,
     hub_sts17 w = Ok dataset -> item ∈ dataset -> sts17_complete item = false ->
     download_mteb_sts17 w fs = (Ok false, fs)) /\
  (forall w fs dataset item,
     hub_squad w = Ok dataset -> item ∈ dataset -> squad_complete item = false ->
     download_squad_sample w fs = (Ok false, fs)) /\
  (forall w fs pre item suf text,
     hub_squad w = Ok (pre ++ item :: suf) ->
     SQuAD.context item = Some text -> SQuAD.title item = None ->
     (forall earlier, earlier ∈ pre -> SQuAD.context earlier <> Some text) ->
     download_squad_sample w fs = (Ok false, fs)) /\
  (forall w fs dataset item,
     hub_quora w = Ok dataset -> item ∈ dataset -> quora_complete item = false ->
     download_quora_sample w fs = (Ok false, fs)) /\
  (forall w fs dataset item,
     hub_nfcorpus w = Ok dataset -> item ∈ dataset -> NFCorpus.query item = None ->
     download_nfcorpus_sample w fs = (Ok false, fs)) /\
  (forall i item st query,
     NFCorpus.query item = Some query -> NFCorpus.corpus_id item = None ->
     nfcorpus_body i item st = Ok st) /\
  (forall i item queries corpus seen_docs query corpus_id,
     NFCorpus.query item = Some query ->
     NFCorpus.corpus_id item = Some corpus_id ->
     NFCorpus.corpus_text item = None ->
     seen_docs !! ("nfcorpus-" +:+ corpus_id) = None ->
     exists q,
       nfcorpus_body i item (queries, corpus, seen_docs) =
       Ok (queries ++ [q],
           corpus ++ [ {| did := "nfcorpus-" +:+ corpus_id;
                          content := "Document " +:+ ("nfcorpus-" +:+ corpus_id);
                          metadata := [("medical", SBool true)] |} ],
           <["nfcorpus-" +:+ corpus_id := true]> seen_docs)).
Proof.
  split; [|split; [|split; [|split; [|split; [|split]]]]].
  - intros w fs ds item Hhub Hin Hinc.
    rewrite download_mteb_sts17_shape, Hhub.
    destruct (for_enumerate_row_raises sts17_body ds item Hin
                (sts17_incomplete_raises item Hinc) 0 ([], [])) as [e He].
    eapply fetch_normalise_write_raise. exact He.
  - intros w fs ds item Hhub Hin Hinc.
    rewrite download_squad_sample_shape, Hhub.
    destruct (for_enumerate_row_raises squad_body ds item Hin
                (squad_incomplete_raises item Hinc) 0 ([], [], ∅)) as [e He].
    eapply (fetch_normalise_write_raise _ _ _ _ _ _ _ e).
    unfold squad_loop. rewrite He. reflexivity.
  - intros w fs pre item suf text Hhub Hctx Htitle Hnew.
    rewrite download_squad_sample_shape, Hhub.
    destruct (squad_new_context_needs_title pre item suf text Hctx Htitle Hnew) as [e He].
    eapply fetch_normalise_write_raise. exact He.
  - intros w fs ds item Hhub Hin Hinc.
    rewrite download_quora_sample_shape, Hhub.
    destruct (for_enumerate_row_raises quora_body ds item Hin
                (quora_incomplete_raises item Hinc) 0 ([], [], ∅)) as [e He].
    eapply (fetch_normalise_write_raise _ _ _ _ _ _ _ e).
    unfold quora_loop. rewrite He. reflexivity.
  - intros w fs ds item Hhub Hin Hinc.
    rewrite download_nfcorpus_sample_shape, Hhub.
    destruct (for_enumerate_row_raises nfcorpus_body ds item Hin
                (nfcorpus_incomplete_raises item Hinc) 0 ([], [], ∅)) as [e He].
    eapply (fetch_normalise_write_raise _ _ _ _ _ _ _ e).
    unfold nfcorpus_loop. rewrite He. reflexivity.
  - intros i item [[qs c] sn] qu Hq Hcid.
    unfold nfcorpus_body. rewrite Hq, Hcid. reflexivity.
  - intros i item qs c sn qu cid Hq Hcid Htxt Hseen.
    unfold nfcorpus_body. rewrite Hq, Hcid, Htxt. simpl. rewrite Hseen.
    eexists. reflexivity.
Qed.

Lemma C3_missing_field_witness :
  download_mteb_sts17 w_sts17_broken ∅ = (Ok false, ∅).
Proof.
  destruct C3_missing_field as (Hsts & _).
  apply (Hsts w_sts17_broken ∅ sts17_broken
           {| STS17.sentence1 := Some "c"; STS17.sentence2 := None;
              STS17.score := Some f0_0 |}).
  - reflexivity.
  - right. left.
  - reflexivity.
Defined.

(** C4 (error containment). The four downloading adapters turn every
    exception raised inside them into the result [False]: they always
    return a boolean. [create_sample_dataset] has no handler: when
    [datasets/sample] cannot be created its exception leaves the
    adapter and [main], no later adapter runs although each of them
    would have succeeded, and nothing is written. *)
Theorem C4_sample_adapter_exception_escapes :
  (forall w fs,
     (exists r fs', download_mteb_sts17 w fs = (Ok r, fs')) /\
     (exists r fs', download_squad_sample w fs = (Ok r, fs')) /\
     (exists r fs', download_quora_sample w fs = (Ok r, fs')) /\
     (exists r fs', download_nfcorpus_sample w fs = (Ok r, fs'))) /\
  create_sample_dataset w_sample_blocked ∅ = (Raise (OSError "datasets/sample"), ∅) /\
  main w_sample_blocked ∅ = (Raise (OSError "datasets/sample"), ∅) /\
  script w_sample_blocked ∅ = (1%Z, ∅) /\
  (download_mteb_sts17 w_sample_blocked ∅).1 = Ok true /\
  (download_squad_sample w_sample_blocked ∅).1 = Ok true /\
  (download_quora_sample w_sample_blocked ∅).1 = Ok true /\
  (download_nfcorpus_sample w_sample_blocked ∅).1 = Ok true.
Proof.
  split; [exact downloads_return|].
  repeat split; vm_compute; reflexivity.
Qed.

(** C5 (alignment). In the batch of every adapter, every Query has as
    many relevance scores as relevant document IDs. *)
Theorem C5_alignment (b : batch) :
  output_batch b -> aligned b.
Proof.
  intros H. destruct (output_batch_cases b H) as [->|Hs].
  - apply sample_batch_checked.
  - destruct b as [qs c]. apply (single_judgment_batch qs c Hs).
Qed.

Lemma C5_alignment_witness :
  output_batch squad_example_batch /\ aligned squad_example_batch.
Proof.
  assert (H : output_batch squad_example_batch).
  { apply (out_squad squad_example). vm_compute. reflexivity. }
  split; [exact H|]. exact (C5_alignment squad_example_batch H).
Defined.

(** C6 (no-judgment drop). No adapter emits a Query whose
    [relevantDocs] is empty; and a row for which no judgment is
    extracted (an NFCorpus row without ["corpus-id"], a Quora pair that
    is not a duplicate) leaves the queries as they are, so that no Query
    of the output carries the ID of that row. *)
Theorem C6_no_judgment_drop :
  (forall b, output_batch b -> answerable b) /\
  (forall i item st st',
     NFCorpus.corpus_id item = None ->
     nfcorpus_body i item st = Ok st' -> st' = st) /\
  (forall dataset queries corpus i item,
     nfcorpus_loop dataset = Ok (queries, corpus) ->
     dataset !! i = Some item -> NFCorpus.corpus_id item = None ->
     forall q, q ∈ queries -> qid q <> "nfcorpus-q-" +:+ pretty i) /\
  (forall dataset queries corpus i item,
     quora_loop dataset = Ok (queries, corpus) ->
     dataset !! i = Some item -> Quora.is_duplicate item = Some false ->
     forall q, q ∈ queries -> qid q <> "quora-pair-" +:+ pretty i).
Proof.
  split; [|split; [|split]].
  - intros b H. destruct (output_batch_cases b H) as [->|Hs].
    + apply sample_batch_checked.
    + destruct b as [qs c]. apply (single_judgment_batch qs c Hs).
  - intros i item [[qs c] sn] st' Hnone Hb.
    apply nfcorpus_body_Ok in Hb as (qu & _ & Hst).
    rewrite Hnone in Hst. exact Hst.
  - intros ds qs c i item H Hi Hnone q Hq Hid.
    apply nfcorpus_loop_inv in H as (seen & _ & _ & _ & _ & Hqs).
    apply Hqs in Hq as (j & item' & qu & cid & Hj & _ & Hcid & ->).
    simpl in Hid. apply fstring_nat_inj in Hid. subst j. congruence.
  - intros ds qs c i item H Hi Hdup q Hq Hid.
    apply quora_loop_inv in H as (seen & _ & _ & _ & Hqs).
    apply Hqs in Hq as (j & item' & a & q1 & q2 & r & v & Hj & _ & _ & Hd & _ & ->).
    simpl in Hid. apply fstring_nat_inj in Hid. subst j. congruence.
Qed.

Lemma C6_no_judgment_drop_witness :
  nfcorpus_loop nfcorpus_example = Ok nfcorpus_example_batch /\
  answerable nfcorpus_example_batch /\
  (forall q, q ∈ nfcorpus_example_batch.1 -> qid q <> "nfcorpus-q-1").
Proof.
  destruct C6_no_judgment_drop as (Hans & _ & Hnf & _).
  assert (Hrun : nfcorpus_loop nfcorpus_example = Ok nfcorpus_example_batch)
    by (vm_compute; reflexivity).
  split; [exact Hrun|]. split.
  - apply Hans. apply (out_nfcorpus nfcorpus_example). exact Hrun.
  - apply (Hnf nfcorpus_example _ _ 1
             {| NFCorpus.query := Some "r"; NFCorpus.corpus_id := None;
                NFCorpus.corpus_text := None |} Hrun); reflexivity.
Defined.

(** C7 (exit status). The process exits with status 0 exactly when the
    [datasets] package could be imported and each of the five adapters,
    run in order, returned [True]; in every other case it exits with
    status 1. *)
Theorem C7_exit_status (w : World) (fs : gmap string jsonl) :
  ((script w fs).1 = 0%Z <->
   datasets_installed w = true /\
   exists fs1 fs2 fs3 fs4 fs5,
     create_sample_dataset w fs = (Ok true, fs1) /\
     download_mteb_sts17 w fs1 = (Ok true, fs2) /\
     download_squad_sample w fs2 = (Ok true, fs3) /\
     download_quora_sample w fs3 = (Ok true, fs4) /\
     download_nfcorpus_sample w fs4 = (Ok true, fs5)) /\
  ((script w fs).1 = 0%Z \/ (script w fs).1 = 1%Z).
Proof.
  unfold script. rewrite main_run.
  destruct (datasets_installed w).
  2:{ simpl. split; [|right; reflexivity]. split; [discriminate|].
      intros [? _]; discriminate. }
  destruct (create_sample_dataset w fs) as [[r1|e] fs1].
  2:{ simpl. split; [|right; reflexivity]. split; [discriminate|].
      intros (_ & ? & ? & ? & ? & ? & H & _). discriminate. }
  destruct (downloads_return w fs1) as ((r2 & fs2 & H2) & _). rewrite H2.
  destruct (downloads_return w fs2) as (_ & (r3 & fs3 & H3) & _). rewrite H3.
  destruct (downloads_return w fs3) as (_ & _ & (r4 & fs4 & H4) & _). rewrite H4.
  destruct (downloads_return w fs4) as (_ & _ & _ & (r5 & fs5 & H5)). rewrite H5.
  split.
  - split.
    + intros H. split; [reflexivity|].
      exists fs1, fs2, fs3, fs4, fs5.
      destruct r1, r2, r3, r4, r5; simpl in H; try discriminate. repeat split; assumption.
    + intros (_ & g1 & g2 & g3 & g4 & g5 & G1 & G2 & G3 & G4 & G5).
      inversion G1; subst. rewrite H2 in G2. inversion G2; subst.
      rewrite H3 in G3. inversion G3; subst.
      rewrite H4 in G4. inversion G4; subst.
      rewrite H5 in G5. inversion G5; subst. reflexivity.
  - destruct (r1 && r2 && r3 && r4 && r5); simpl; auto.
Qed.

(** C8 (unique IDs). In the batch of every adapter the Document IDs are
    pairwise distinct and the Query IDs are pairwise distinct. In the
    SQuAD and Quora batches the ID of the [k]-th Document ends in [k],
    the size of the dedup table when it was inserted; Query IDs, and
    the STS-17 Document IDs, end in the position of the row. *)
Theorem C8_unique_ids :
  (forall b, output_batch b -> unique_ids b) /\
  (forall dataset queries corpus,
     squad_loop dataset = Ok (queries, corpus) ->
     (forall k d, corpus !! k = Some d -> did d = "squad-doc-" +:+ pretty k) /\
     (forall i q, queries !! i = Some q -> qid q = "squad-q-" +:+ pretty i)) /\
  (forall dataset queries corpus,
     quora_loop dataset = Ok (queries, corpus) ->
     (forall k d, corpus !! k = Some d -> did d = "quora-q-" +:+ pretty k) /\
     (forall q, q ∈ queries ->
        exists i, i < length dataset /\ qid q = "quora-pair-" +:+ pretty i)) /\
  (forall dataset queries corpus,
     sts17_loop dataset = Ok (queries, corpus) ->
     (forall i d, corpus !! i = Some d -> did d = "sts17-doc-" +:+ pretty i) /\
     (forall i q, queries !! i = Some q -> qid q = "sts17-en-en-" +:+ pretty i)).
Proof.
  split; [exact output_batch_unique_ids|].
  split; [exact squad_positional|].
  split; [exact quora_positional|exact sts17_positional].
Qed.

Lemma C8_unique_ids_witness :
  output_batch squad_example_batch /\ unique_ids squad_example_batch.
Proof.
  assert (H : output_batch squad_example_batch).
  { apply (out_squad squad_example). vm_compute. reflexivity. }
  split; [exact H|]. exact (proj1 C8_unique_ids squad_example_batch H).
Defined.

(** C9 (score normalisation). The STS-17 loop stores, as the one
    relevance score of the Query of a row, the row's [score] divided by
    [5.0]. In binary64 arithmetic this division maps [5.0] to exactly
    [1.0] and [0.0] to exactly [0.0], and every float [x] with
    [0.0 <= x <= 5.0] to a float between [0.0] and [1.0]. *)
Theorem C9_score_normalisation :
  (forall i item queries corpus st' score,
     STS17.score item = Some score ->
     sts17_body i item (queries, corpus) = Ok st' ->
     exists q, st'.1 = queries ++ [q] /\ relevanceScores q = [truediv score f5_0]) /\
  truediv f5_0 f5_0 = f1_0 /\
  truediv f0_0 f5_0 = f0_0 /\
  (forall x,
     is_float x = true -> le f0_0 x = true -> le x f5_0 = true ->
     le f0_0 (truediv x f5_0) = true /\ le (truediv x f5_0) f1_0 = true).
Proof.
  split; [|split; [|split]].
  - intros i item qs c st' sc Hsc Hb.
    apply sts17_body_Ok in Hb as (s1 & s2 & sc' & -> & ->).
    simpl in Hsc. inversion Hsc; subst sc'.
    eexists. split; reflexivity.
  - vm_compute. reflexivity.
  - vm_compute. reflexivity.
  - intros x Hx H0 H5. apply div5_range; assumption.
Qed.

Lemma C9_score_normalisation_witness :
  le f0_0 (truediv f4_4 f5_0) = true /\ le (truediv f4_4 f5_0) f1_0 = true.
Proof.
  destruct C9_score_normalisation as (_ & _ & _ & Hrange).
  apply (Hrange f4_4); vm_compute; reflexivity.
Defined.

(** C10 (STS-17 does not deduplicate). On rows that have their three
    columns the STS-17 loop ends normally; whenever it does, it has
    built one Query and one Document per row, in order: the Document of
    row [i] has ID ["sts17-doc-{i}"] and holds [sentence2] of the row,
    the Query of row [i] lists exactly that ID. Queries and corpus have
    the length of the input, and Documents at two different positions
    have different IDs, also when they hold the same text. *)
Theorem C10_sts17_no_dedup (dataset : list STS17.item) :
  (Forall (fun item => sts17_complete item = true) dataset ->
   exists b, sts17_loop dataset = Ok b) /\
  forall queries corpus,
    sts17_loop dataset = Ok (queries, corpus) ->
    length queries = length dataset /\
    length corpus = length dataset /\
    (forall i item, dataset !! i = Some item ->
       exists q d,
         queries !! i = Some q /\ corpus !! i = Some d /\
         did d = "sts17-doc-" +:+ pretty i /\
         STS17.sentence2 item = Some (content d) /\
         relevantDocs q = ["sts17-doc-" +:+ pretty i]) /\
    (forall i j di dj,
       i <> j -> corpus !! i = Some di -> corpus !! j = Some dj ->
       did di <> did dj).
Proof.
  split; [apply sts17_loop_total|].
  intros queries corpus H.
  pose proof (sts17_positional _ _ _ H) as [Hpos _].
  apply sts17_loop_rows in H as (Hq & Hc & Hrows). simpl in *.
  split; [exact Hq|]. split; [exact Hc|]. split.
  - intros i item Hi.
    destruct (Hrows i item Hi) as (s1 & s2 & sc & -> & Hqi & Hci).
    eexists _, _. split; [exact Hqi|]. split; [exact Hci|]. simpl. auto.
  - intros i j di dj Hne Hi Hj Heq.
    rewrite (Hpos i di Hi), (Hpos j dj Hj) in Heq.
    apply fstring_nat_inj in Heq. contradiction.
Qed.

Lemma C10_sts17_no_dedup_witness :
  sts17_loop sts17_example = Ok sts17_example_batch /\
  length sts17_example_batch.1 = 2 /\ length sts17_example_batch.2 = 2 /\
  (forall i j di dj,
     i <> j -> sts17_example_batch.2 !! i = Some di ->
     sts17_example_batch.2 !! j = Some dj -> did di <> did dj).
Proof.
  assert (Hrun : sts17_loop sts17_example = Ok sts17_example_batch)
    by (vm_compute; reflexivity).
  destruct (proj2 (C10_sts17_no_dedup sts17_example) _ _ Hrun) as (Hq & Hc & _ & Hd).
  split; [exact Hrun|]. split; [exact Hq|]. split; [exact Hc|exact Hd].
Defined.

(** * Further properties of the code *)

(** ** First occurrences *)

Lemma first_occurrences_snoc l x :
  first_occurrences (l ++ [x]) =
  if decide (x ∈ first_occurrences l) then first_occurrences l
  else first_occurrences l ++ [x].
Proof. unfold first_occurrences. rewrite foldl_snoc. reflexivity. Qed.

Lemma first_occurrences_elem l x : x ∈ first_occurrences l <-> x ∈ l.
Proof.
  induction l as [|y l IH] using rev_ind.
  - reflexivity.
  - rewrite first_occurrences_snoc.
    destruct (decide (y ∈ first_occurrences l)) as [Hin|Hnin];
      rewrite !elem_of_app, ?list_elem_of_singleton; rewrite ?IH.
    + split; [auto|]. intros [H| ->]; [exact H|]. apply IH. exact Hin.
    + reflexivity.
Qed.

Lemma first_occurrences_NoDup l : NoDup (first_occurrences l).
Proof.
  induction l as [|y l IH] using rev_ind.
  - constructor.
  - rewrite first_occurrences_snoc.
    destruct (decide (y ∈ first_occurrences l)) as [Hin|Hnin]; [exact IH|].
    apply NoDup_app. split; [exact IH|]. split; [|apply NoDup_singleton].
    intros z Hz Hz'. apply list_elem_of_singleton in Hz'. subst z. contradiction.
Qed.

Lemma first_occurrences_length l : length (first_occurrences l) <= length l.
Proof.
  induction l as [|y l IH] using rev_ind; [reflexivity|].
  rewrite first_occurrences_snoc, length_app. simpl.
  destruct (decide (y ∈ first_occurrences l)); [lia|].
  rewrite length_app. simpl. lia.
Qed.

Lemma dedup_inv_seen_iff prefix corpus seen key :
  dedup_inv prefix corpus seen ->
  is_Some (seen !! key) <-> key ∈ content <$> corpus.
Proof.
  intros (_ & Hdocs & Hkeys). split.
  - intros [v Hv]. destruct (Hkeys key v Hv) as (k & d & Hk & <- & _).
    apply list_elem_of_fmap. exists d. split; [reflexivity|].
    eapply list_elem_of_lookup_2. exact Hk.
  - intros Hin. apply list_elem_of_fmap in Hin as (d & -> & Hd).
    apply list_elem_of_lookup in Hd as [k Hk].
    destruct (Hdocs k d Hk) as [_ Hs]. eauto.
Qed.

(** ** The SQuAD corpus *)

Lemma squad_first_row_snoc pre x d :
  squad_first_row pre d -> squad_first_row (pre ++ [x]) d.
Proof.
  intros (i & item & t & Hi & Hc & Ht & Hm & Hfirst).
  exists i, item, t. split; [apply lookup_app_l_Some; exact Hi|].
  repeat split; auto.
  intros j earlier Hj Hlook. apply (Hfirst j earlier Hj).
  rewrite lookup_app_l in Hlook; [exact Hlook|].
  apply lookup_lt_Some in Hi. lia.
Qed.

Lemma squad_contexts_snoc pre x ctx :
  SQuAD.context x = Some ctx -> squad_contexts (pre ++ [x]) = squad_contexts pre ++ [ctx].
Proof. intros H. unfold squad_contexts. rewrite omap_app. simpl. rewrite H. reflexivity. Qed.

Lemma squad_contexts_elem pre ctx :
  ctx ∈ squad_contexts pre <->
  exists j earlier, pre !! j = Some earlier /\ SQuAD.context earlier = Some ctx.
Proof.
  unfold squad_contexts. rewrite list_elem_of_omap. split.
  - intros (item & Hin & Hc). apply list_elem_of_lookup in Hin as [j Hj]. eauto.
  - intros (j & item & Hj & Hc). exists item. split; [|exact Hc].
    eapply list_elem_of_lookup_2. exact Hj.
Qed.

Lemma omap_length_le {A B} (f : A -> option B) (l : list A) :
  length (omap f l) <= length l.
Proof. induction l as [|x l IH]; csimpl; [lia|]. destruct (f x); simpl; lia. Qed.

Lemma squad_run_corpus_inv dataset st :
  for_enumerate squad_body 0 dataset ([], [], ∅) = Ok st ->
  squad_corpus_inv dataset st.
Proof.
  intros Hrun.
  refine (for_enumerate_inv squad_body squad_corpus_inv dataset ([], [], ∅) _ _ _ Hrun).
  - split; [apply dedup_inv_empty|]. split; [reflexivity|constructor].
  - intros pre x [[qs c] sn] s1 (Hd & Hc & Hfirst) Hb.
    apply squad_body_Ok in Hb
      as (ctx & qu & doc_id & c' & sn' & Hctx & _ & -> & Hcase).
    unfold squad_corpus_inv.
    rewrite (squad_contexts_snoc pre x ctx Hctx), first_occurrences_snoc, <- Hc.
    assert (Hold : Forall (squad_first_row (pre ++ [x])) c).
    { eapply Forall_impl; [exact Hfirst|]. intros d. apply squad_first_row_snoc. }
    destruct Hcase as [(Hnone & -> & -> & t & Ht & ->)|(Hsome & -> & ->)].
    + assert (Hnin : ctx ∉ content <$> c).
      { intros Hin. apply (dedup_inv_seen_iff _ _ _ _ Hd) in Hin as [v Hv]. congruence. }
      rewrite decide_False by exact Hnin.
      split; [apply dedup_inv_insert; assumption|].
      split; [rewrite fmap_app; reflexivity|].
      apply Forall_app. split; [exact Hold|]. constructor; [|constructor].
      exists (length pre), x, t. split; [apply list_lookup_middle; reflexivity|].
      repeat split; auto.
      intros j earlier Hj Hlook Hearlier.
      rewrite lookup_app_l in Hlook by exact Hj.
      apply Hnin. rewrite Hc. apply first_occurrences_elem, squad_contexts_elem. eauto.
    + assert (Hin : ctx ∈ content <$> c).
      { apply (dedup_inv_seen_iff _ _ _ _ Hd). eauto. }
      rewrite decide_True by exact Hin. auto.
Qed.

Lemma squad_loop_corpus_inv dataset queries corpus :
  squad_loop dataset = Ok (queries, corpus) ->
  exists seen_contexts, squad_corpus_inv dataset (queries, corpus, seen_contexts).
Proof.
  unfold squad_loop. intros H.
  destruct (for_enumerate squad_body 0 dataset ([], [], ∅)) as [[[qs c] seen]|e] eqn:Hrun;
    [|discriminate].
  simpl in H. inversion H; subst qs c. exists seen.
  apply squad_run_corpus_inv. exact Hrun.
Qed.

(** The SQuAD corpus holds the distinct contexts of the rows, each once,
    in the order in which they first appear; there is one Query per row
    and never more Documents than rows. *)
Theorem squad_corpus_first_occurrences dataset queries corpus :
  squad_loop dataset = Ok (queries, corpus) ->
  content <$> corpus = first_occurrences (squad_contexts dataset) /\
  length queries = length dataset /\
  length corpus <= length dataset.
Proof.
  intros H. pose proof (squad_loop_inv _ _ _ H) as (sn & _ & Hlen & _).
  apply squad_loop_corpus_inv in H as (seen & _ & Hc & _).
  split; [exact Hc|]. split; [exact Hlen|].
  rewrite <- (length_fmap content), Hc.
  etransitivity; [apply first_occurrences_length|].
  apply omap_length_le.
Qed.

Lemma squad_corpus_first_occurrences_witness :
  content <$> squad_example_batch.2 = first_occurrences (squad_contexts squad_example) /\
  length squad_example_batch.1 = length squad_example /\
  length squad_example_batch.2 <= length squad_example.
Proof.
  apply (squad_corpus_first_occurrences squad_example).
  vm_compute. reflexivity.
Defined.

(** First seen wins: a SQuAD Document carries the title of the first row
    that has its text; the titles of later rows with the same context
    are not looked at. *)
Theorem squad_first_seen_title dataset queries corpus d :
  squad_loop dataset = Ok (queries, corpus) -> d ∈ corpus ->
  squad_first_row dataset d.
Proof.
  intros H Hd. apply squad_loop_corpus_inv in H as (seen & _ & _ & Hfirst).
  rewrite Forall_forall in Hfirst. auto.
Qed.

Lemma squad_first_seen_title_witness :
  squad_first_row squad_untitled_repeat
    {| did := "squad-doc-0"; content := "same text";
       metadata := [("title", SStr "t")] |}.
Proof.
  apply (squad_first_seen_title squad_untitled_repeat
           squad_example_batch.1 squad_example_batch.2).
  - vm_compute. reflexivity.
  - left.
Defined.

(** ** The Quora and NFCorpus corpora *)

Lemma query_ids_snoc {X} (f : nat -> X -> option string) pre x :
  query_ids f (pre ++ [x]) =
  query_ids f pre ++ match f (length pre) x with Some s => [s] | None => [] end.
Proof.
  unfold query_ids. rewrite imap_app, omap_app. simpl.
  rewrite Nat.add_0_r. destruct (f (length pre) x); reflexivity.
Qed.

Lemma query_ids_length {X} (f : nat -> X -> option string) dataset :
  length (query_ids f dataset) <= length dataset.
Proof.
  unfold query_ids. etransitivity; [apply omap_length_le|]. rewrite length_imap. lia.
Qed.

Lemma quora_add_first corpus seen l q corpus' seen' :
  dedup_inv "quora-q-" corpus seen ->
  content <$> corpus = first_occurrences l ->
  quora_add (corpus, seen) q = (corpus', seen') ->
  content <$> corpus' = first_occurrences (l ++ [q]).
Proof.
  intros Hd Hc Hadd. rewrite first_occurrences_snoc, <- Hc.
  unfold quora_add in Hadd.
  destruct (seen !! q) as [v|] eqn:Hq; inversion Hadd; subst corpus' seen'.
  - rewrite decide_True; [reflexivity|].
    apply (dedup_inv_seen_iff _ _ _ _ Hd). eauto.
  - rewrite decide_False; [rewrite fmap_app; reflexivity|].
    intros Hin. apply (dedup_inv_seen_iff _ _ _ _ Hd) in Hin as [v Hv]. congruence.
Qed.

Lemma quora_questions_snoc pre x :
  quora_questions (pre ++ [x]) = quora_questions pre ++ quora_pair x.
Proof.
  unfold quora_questions. rewrite bind_app. simpl. rewrite app_nil_r. reflexivity.
Qed.

Lemma quora_loop_corpus_inv dataset queries corpus :
  quora_loop dataset = Ok (queries, corpus) ->
  exists seen_questions, quora_corpus_inv dataset (queries, corpus, seen_questions).
Proof.
  unfold quora_loop. intros H.
  destruct (for_enumerate quora_body 0 dataset ([], [], ∅)) as [[[qs c] seen]|e] eqn:Hrun;
    [|discriminate].
  simpl in H. inversion H; subst qs c. exists seen.
  refine (for_enumerate_inv quora_body quora_corpus_inv dataset ([], [], ∅) _ _ _ Hrun).
  - split; [apply dedup_inv_empty|]. split; reflexivity.
  - intros pre x [[qs c] sn] s1 (Hd & Hc & Hq) Hb.
    apply quora_body_Ok in Hb
      as (qt & q1 & q2 & rest & dup & c' & sn' & Hqt & Htxt & Hdup & Hadd & Hst).
    destruct (quora_add (c, sn) q1) as [c1 sn1] eqn:Hadd1.
    destruct (quora_add_inv _ _ _ _ _ Hadd1 Hd) as (Hd1 & _ & _).
    destruct (quora_add_inv _ _ _ _ _ Hadd Hd1) as (Hd2 & _ & _).
    pose proof (quora_add_first _ _ _ _ _ _ Hd Hc Hadd1) as Hc1.
    pose proof (quora_add_first _ _ _ _ _ _ Hd1 Hc1 Hadd) as Hc2.
    assert (Hpair : quora_pair x = [q1; q2]).
    { unfold quora_pair. rewrite Hqt, Htxt. reflexivity. }
    assert (Hc' : content <$> c' = first_occurrences (quora_questions (pre ++ [x]))).
    { rewrite quora_questions_snoc, Hpair, Hc2, <- app_assoc. reflexivity. }
    unfold quora_corpus_inv. rewrite query_ids_snoc. unfold quora_query_id at 2.
    rewrite Hdup. destruct dup.
    + destruct Hst as (q2_id & _ & ->).
      split; [exact Hd2|]. split; [exact Hc'|].
      rewrite fmap_app, Hq. reflexivity.
    + subst s1. split; [exact Hd2|]. split; [exact Hc'|].
      rewrite app_nil_r. exact Hq.
Qed.

Lemma nfcorpus_first_row_snoc pre x d :
  nfcorpus_first_row pre d -> nfcorpus_first_row (pre ++ [x]) d.
Proof.
  intros (i & item & Hi & Hid & Hc & Hfirst).
  exists i, item. split; [apply lookup_app_l_Some; exact Hi|].
  repeat split; auto.
  intros j earlier Hj Hlook. apply (Hfirst j earlier Hj).
  rewrite lookup_app_l in Hlook; [exact Hlook|].
  apply lookup_lt_Some in Hi. lia.
Qed.

Lemma nfcorpus_doc_ids_elem pre doc_id :
  doc_id ∈ nfcorpus_doc_ids pre <->
  exists j earlier, pre !! j = Some earlier /\ nfcorpus_doc_id earlier = Some doc_id.
Proof.
  unfold nfcorpus_doc_ids. rewrite list_elem_of_omap. split.
  - intros (item & Hin & Hc). apply list_elem_of_lookup in Hin as [j Hj]. eauto.
  - intros (j & item & Hj & Hc). exists item. split; [|exact Hc].
    eapply list_elem_of_lookup_2. exact Hj.
Qed.

Lemma nfcorpus_loop_corpus_inv dataset queries corpus :
  nfcorpus_loop dataset = Ok (queries, corpus) ->
  exists seen_docs, nfcorpus_corpus_inv dataset (queries, corpus, seen_docs).
Proof.
  unfold nfcorpus_loop. intros H.
  destruct (for_enumerate nfcorpus_body 0 dataset ([], [], ∅)) as [[[qs c] seen]|e] eqn:Hrun;
    [|discriminate].
  simpl in H. inversion H; subst qs c. exists seen.
  refine (for_enumerate_inv nfcorpus_body nfcorpus_corpus_inv dataset ([], [], ∅) _ _ _ Hrun).
  - split.
    { intros doc_id. rewrite lookup_empty. split; [intros [? ?]; discriminate|].
      intros Hin. inversion Hin. }
    split; [reflexivity|]. split; [constructor|reflexivity].
  - intros pre x [[qs c] sn] s1 (Hseen & Hc & Hfirst & Hq) Hb.
    apply nfcorpus_body_Ok in Hb as (qu & Hqu & Hst).
    assert (Hold : Forall (nfcorpus_first_row (pre ++ [x])) c).
    { eapply Forall_impl; [exact Hfirst|]. intros d. apply nfcorpus_first_row_snoc. }
    unfold nfcorpus_corpus_inv, nfcorpus_doc_ids.
    rewrite query_ids_snoc, omap_app. unfold nfcorpus_query_id at 2.
    simpl omap. unfold nfcorpus_doc_id at 2.
    destruct (NFCorpus.corpus_id x) as [cid|] eqn:Hcid; simpl.
    + fold (nfcorpus_doc_ids pre). rewrite first_occurrences_snoc, <- Hc.
      destruct Hst as (c' & sn' & -> & Hcase).
      rewrite fmap_app, Hq. simpl.
      destruct Hcase as [(Hnone & -> & ->)|(Hsome & -> & ->)].
      * assert (Hnin : "nfcorpus-" +:+ cid ∉ did <$> c).
        { intros Hin. apply Hseen in Hin as [v Hv]. congruence. }
        rewrite decide_False by exact Hnin.
        split.
        { intros doc_id. rewrite fmap_app, elem_of_app. simpl.
          rewrite list_elem_of_singleton, <- Hseen.
          destruct (decide ("nfcorpus-" +:+ cid = doc_id)) as [<-|Hne].
          - rewrite lookup_insert_eq. split; eauto.
          - rewrite lookup_insert_ne by exact Hne. split; [auto|].
            intros [?|?]; [assumption|congruence]. }
        split; [rewrite fmap_app; reflexivity|]. split; [|reflexivity].
        apply Forall_app. split; [exact Hold|]. constructor; [|constructor].
        exists (length pre), x. split; [apply list_lookup_middle; reflexivity|].
        split; [unfold nfcorpus_doc_id; rewrite Hcid; reflexivity|].
        split; [reflexivity|].
        intros j earlier Hj Hlook Hearlier. simpl in Hearlier.
        rewrite lookup_app_l in Hlook by exact Hj.
        apply Hnin. rewrite Hc. apply first_occurrences_elem, nfcorpus_doc_ids_elem. eauto.
      * rewrite decide_True by (apply Hseen; exact Hsome).
        split; [exact Hseen|]. split; [reflexivity|]. split; [exact Hold|reflexivity].
    + subst s1. fold (nfcorpus_doc_ids pre). rewrite !app_nil_r.
      split; [exact Hseen|]. split; [exact Hc|]. split; [exact Hold|exact Hq].
Qed.

Lemma quora_questions_length dataset :
  length (quora_questions dataset) <= 2 * length dataset.
Proof.
  induction dataset as [|x l IH] using rev_ind; [simpl; lia|].
  rewrite quora_questions_snoc, !length_app. simpl.
  assert (length (quora_pair x) <= 2).
  { unfold quora_pair. destruct (Quora.questions x) as [qt|]; [|simpl; lia].
    destruct (Quora.text qt) as [[|q1 [|q2 r]]|]; simpl; lia. }
  lia.
Qed.

(** The Quora corpus holds the distinct questions of all the rows,
    duplicate pairs or not, each once, in the order in which they are
    first read; it has at most two Documents per row. *)
Theorem quora_corpus_first_occurrences dataset queries corpus :
  quora_loop dataset = Ok (queries, corpus) ->
  content <$> corpus = first_occurrences (quora_questions dataset) /\
  length corpus <= 2 * length dataset.
Proof.
  intros H. apply quora_loop_corpus_inv in H as (seen & _ & Hc & _).
  split; [exact Hc|].
  rewrite <- (length_fmap content), Hc.
  etransitivity; [apply first_occurrences_length|apply quora_questions_length].
Qed.

Lemma quora_corpus_first_occurrences_witness :
  exists queries corpus,
    quora_loop quora_example = Ok (queries, corpus) /\
    content <$> corpus = ["x"; "same text"; "y"] /\
    length corpus <= 2 * length quora_example.
Proof.
  assert (H : exists b, quora_loop quora_example = Ok b)
    by (eexists; vm_compute; reflexivity).
  destruct H as [[queries corpus] H]. exists queries, corpus.
  split; [exact H|].
  exact (quora_corpus_first_occurrences quora_example queries corpus H).
Defined.

(** The NFCorpus corpus holds one Document per distinct ID the rows
    refer to, in order of first reference, and the content of a
    Document comes from the first row that refers to it: its
    ["corpus-text"], or ["Document {doc_id}"] when that row has none. *)
Theorem nfcorpus_corpus_first_occurrences dataset queries corpus :
  nfcorpus_loop dataset = Ok (queries, corpus) ->
  did <$> corpus = first_occurrences (nfcorpus_doc_ids dataset) /\
  length corpus <= length dataset /\
  forall d, d ∈ corpus -> nfcorpus_first_row dataset d.
Proof.
  intros H. apply nfcorpus_loop_corpus_inv in H as (seen & _ & Hc & Hfirst & _).
  split; [exact Hc|]. split.
  - rewrite <- (length_fmap did), Hc.
    etransitivity; [apply first_occurrences_length|apply omap_length_le].
  - rewrite Forall_forall in Hfirst. exact Hfirst.
Qed.

Lemma nfcorpus_corpus_first_occurrences_witness :
  did <$> nfcorpus_example_batch.2 = ["nfcorpus-MED-1"] /\
  length nfcorpus_example_batch.2 <= length nfcorpus_example /\
  forall d, d ∈ nfcorpus_example_batch.2 -> nfcorpus_first_row nfcorpus_example d.
Proof.
  apply (nfcorpus_corpus_first_occurrences nfcorpus_example nfcorpus_example_batch.1).
  vm_compute. reflexivity.
Defined.

(** The Quora and NFCorpus loops emit their Queries in row order: the
    Query IDs are those of the duplicate pairs (of the rows with a
    ["corpus-id"]), in the order of the rows, so there are never more
    Queries than rows. *)
Theorem query_ids_in_row_order :
  (forall dataset queries corpus,
     quora_loop dataset = Ok (queries, corpus) ->
     qid <$> queries = query_ids quora_query_id dataset /\
     length queries <= length dataset) /\
  (forall dataset queries corpus,
     nfcorpus_loop dataset = Ok (queries, corpus) ->
     qid <$> queries = query_ids nfcorpus_query_id dataset /\
     length queries <= length dataset).
Proof.
  split; intros ds qs c H.
  - apply quora_loop_corpus_inv in H as (seen & _ & _ & Hq).
    split; [exact Hq|]. rewrite <- (length_fmap qid), Hq. apply query_ids_length.
  - apply nfcorpus_loop_corpus_inv in H as (seen & _ & _ & _ & Hq).
    split; [exact Hq|]. rewrite <- (length_fmap qid), Hq. apply query_ids_length.
Qed.

Lemma query_ids_in_row_order_witness :
  (exists queries corpus,
     quora_loop quora_example = Ok (queries, corpus) /\
     qid <$> queries = ["quora-pair-0"; "quora-pair-1"] /\
     length queries <= length quora_example) /\
  qid <$> nfcorpus_example_batch.1 = ["nfcorpus-q-0"] /\
  length nfcorpus_example_batch.1 <= length nfcorpus_example.
Proof.
  destruct query_ids_in_row_order as [Hquora Hnf].
  split.
  - assert (H : exists b, quora_loop quora_example = Ok b)
      by (eexists; vm_compute; reflexivity).
    destruct H as [[queries corpus] H]. exists queries, corpus.
    split; [exact H|]. exact (Hquora quora_example queries corpus H).
  - apply (Hnf nfcorpus_example _ nfcorpus_example_batch.2).
    vm_compute. reflexivity.
Defined.

(** ** Appending rows *)

Lemma for_enumerate_extends {X St} (body : nat -> X -> St -> result St)
    (R : St -> St -> Prop) :
  (forall s, R s s) -> (forall s1 s2 s3, R s1 s2 -> R s2 s3 -> R s1 s3) ->
  (forall i x s s', body i x s = Ok s' -> R s s') ->
  forall xs i s s', for_enumerate body i xs s = Ok s' -> R s s'.
Proof.
  intros Hrefl Htrans Hbody xs. induction xs as [|x xs IH]; intros i s s' Hrun; simpl in Hrun.
  - inversion Hrun. apply Hrefl.
  - destruct (body i x s) as [s1|e] eqn:Hb; [|discriminate].
    eapply Htrans; [eapply Hbody; exact Hb|eapply IH; exact Hrun].
Qed.

Lemma state_extends_refl {T} (s : list Query * list Document * T) : state_extends s s.
Proof. split; reflexivity. Qed.

Lemma state_extends_trans {T} (s1 s2 s3 : list Query * list Document * T) :
  state_extends s1 s2 -> state_extends s2 s3 -> state_extends s1 s3.
Proof. intros [? ?] [? ?]. split; etransitivity; eassumption. Qed.

Lemma squad_body_extends i item s s' :
  squad_body i item s = Ok s' -> state_extends s s'.
Proof.
  destruct s as [[qs c] sn]. intros H.
  apply squad_body_Ok in H as (ctx & qu & doc_id & c' & sn' & _ & _ & -> & Hcase).
  split; simpl; [apply prefix_app_r; reflexivity|].
  destruct Hcase as [(_ & _ & _ & t & _ & ->)|(_ & _ & ->)];
    [apply prefix_app_r|]; reflexivity.
Qed.

Lemma quora_body_extends i item s s' :
  quora_body i item s = Ok s' -> state_extends s s'.
Proof.
  destruct s as [[qs c] sn]. intros H.
  apply quora_body_Ok in H
    as (qt & q1 & q2 & rest & dup & c' & sn' & _ & _ & _ & Hadd & Hst).
  assert (Hadd_ext : forall c0 s0 q c1 s1, quora_add (c0, s0) q = (c1, s1) -> c0 `prefix_of` c1).
  { intros c0 s0 q c1 s1. unfold quora_add. destruct (s0 !! q); intros Heq; inversion Heq.
    - reflexivity.
    - apply prefix_app_r. reflexivity. }
  assert (c `prefix_of` c') as Hc.
  { destruct (quora_add (c, sn) q1) as [c1 sn1] eqn:Hadd1.
    etransitivity; eapply Hadd_ext; eassumption. }
  destruct dup.
  - destruct Hst as (q2_id & _ & ->). split; simpl; [apply prefix_app_r; reflexivity|exact Hc].
  - subst s'. split; simpl; [reflexivity|exact Hc].
Qed.

Lemma nfcorpus_body_extends i item s s' :
  nfcorpus_body i item s = Ok s' -> state_extends s s'.
Proof.
  destruct s as [[qs c] sn]. intros H.
  apply nfcorpus_body_Ok in H as (qu & _ & Hst).
  destruct (NFCorpus.corpus_id item) as [cid|].
  - destruct Hst as (c' & sn' & -> & Hcase).
    split; simpl; [apply prefix_app_r; reflexivity|].
    destruct Hcase as [(_ & _ & ->)|(_ & _ & ->)]; [apply prefix_app_r|]; reflexivity.
  - subst s'. apply state_extends_refl.
Qed.

Lemma sts17_body_extends i item s s' :
  sts17_body i item s = Ok s' -> batch_extends s s'.
Proof.
  destruct s as [qs c]. intros H.
  apply sts17_body_Ok in H as (s1 & s2 & sc & _ & ->).
  split; simpl; apply prefix_app_r; reflexivity.
Qed.

(** The loops with a table, on a dataset that continues another. *)
Lemma table_loop_app {X T} (body : nat -> X -> list Query * list Document * T ->
                                   result (list Query * list Document * T))
    (init : T) xs ys b' :
  (forall i x s s', body i x s = Ok s' -> state_extends s s') ->
  (for_enumerate body 0 (xs ++ ys) ([], [], init)
     ≫= fun '(queries, corpus, _) => Ok (queries, corpus)) = Ok b' ->
  exists b,
    (for_enumerate body 0 xs ([], [], init)
       ≫= fun '(queries, corpus, _) => Ok (queries, corpus)) = Ok b /\
    batch_extends b b'.
Proof.
  intros Hbody H. rewrite for_enumerate_app in H.
  destruct (for_enumerate body 0 xs ([], [], init)) as [[[qs c] t]|e]; [|discriminate].
  simpl in H.
  destruct (for_enumerate body (length xs) ys (qs, c, t)) as [[[qs' c'] t']|e] eqn:Hrun;
    [|discriminate].
  simpl in H. inversion H; subst b'.
  exists (qs, c). split; [reflexivity|].
  apply (for_enumerate_extends body state_extends state_extends_refl
           state_extends_trans Hbody) in Hrun.
  exact Hrun.
Qed.

(** Rows appended to a dataset do not change what the rows before them
    produced: the batch of the shorter dataset is an initial segment,
    Queries and Documents with their IDs, of the batch of the longer
    one. *)
Theorem loops_stable_under_append :
  (forall xs ys b', sts17_loop (xs ++ ys) = Ok b' ->
     exists b, sts17_loop xs = Ok b /\ batch_extends b b') /\
  (forall xs ys b', squad_loop (xs ++ ys) = Ok b' ->
     exists b, squad_loop xs = Ok b /\ batch_extends b b') /\
  (forall xs ys b', quora_loop (xs ++ ys) = Ok b' ->
     exists b, quora_loop xs = Ok b /\ batch_extends b b') /\
  (forall xs ys b', nfcorpus_loop (xs ++ ys) = Ok b' ->
     exists b, nfcorpus_loop xs = Ok b /\ batch_extends b b').
Proof.
  split; [|split; [|split]].
  - intros xs ys b' H. unfold sts17_loop in *. rewrite for_enumerate_app in H.
    destruct (for_enumerate sts17_body 0 xs ([], [])) as [b|e]; [|discriminate].
    simpl in H. exists b. split; [reflexivity|].
    refine (for_enumerate_extends sts17_body batch_extends _ _ sts17_body_extends _ _ _ _ H).
    + intros s. split; reflexivity.
    + intros s1 s2 s3 [? ?] [? ?]. split; etransitivity; eassumption.
  - intros xs ys b'. apply table_loop_app. apply squad_body_extends.
  - intros xs ys b'. apply table_loop_app. apply quora_body_extends.
  - intros xs ys b'. apply table_loop_app. apply nfcorpus_body_extends.
Qed.

Lemma loops_stable_under_append_witness :
  (exists b, sts17_loop (take 1 sts17_example) = Ok b /\
             batch_extends b sts17_example_batch) /\
  (exists b, squad_loop (take 1 squad_example) = Ok b /\
             batch_extends b squad_example_batch) /\
  (exists b b', quora_loop quora_example = Ok b' /\
                quora_loop (take 1 quora_example) = Ok b /\ batch_extends b b') /\
  (exists b, nfcorpus_loop (take 1 nfcorpus_example) = Ok b /\
             batch_extends b nfcorpus_example_batch).
Proof.
  destruct loops_stable_under_append as (Hsts & Hsquad & Hquora & Hnf).
  split; [|split; [|split]].
  - apply (Hsts (take 1 sts17_example) (drop 1 sts17_example)).
    vm_compute. reflexivity.
  - apply (Hsquad (take 1 squad_example) (drop 1 squad_example)).
    vm_compute. reflexivity.
  - assert (H : exists b', quora_loop (take 1 quora_example ++ drop 1 quora_example)
                           = Ok b')
      by (eexists; vm_compute; reflexivity).
    destruct H as [b' H].
    destruct (Hquora _ _ _ H) as (b & Hb & Hext).
    exists b, b'. split; [exact H|]. split; [exact Hb|exact Hext].
  - apply (Hnf (take 1 nfcorpus_example) (drop 1 nfcorpus_example)).
    vm_compute. reflexivity.
Defined.

(** ** Scores *)

Lemma unit_score_one : unit_score f1_0 = true.
Proof. vm_compute. reflexivity. Qed.

(** Every relevance score of the sample, SQuAD, Quora and NFCorpus
    batches lies between [0.0] and [1.0]; so does every score of an
    STS-17 batch whose rows carry raw scores between [0.0] and [5.0]. *)
Theorem scores_in_unit_range :
  unit_scores sample_batch /\
  (forall dataset b,
     Forall (fun item => forall s, STS17.score item = Some s -> likert_score s = true)
       dataset ->
     sts17_loop dataset = Ok b -> unit_scores b) /\
  (forall dataset b, squad_loop dataset = Ok b -> unit_scores b) /\
  (forall dataset b, quora_loop dataset = Ok b -> unit_scores b) /\
  (forall dataset b, nfcorpus_loop dataset = Ok b -> unit_scores b).
Proof.
  split; [|split; [|split; [|split]]].
  - apply (bool_decide_unpack _). vm_compute. exact I.
  - intros ds [qs c] Hall H.
    apply sts17_loop_rows in H as (Hq & _ & Hrows). unfold unit_scores. simpl in *.
    apply Forall_lookup. intros i q Hi.
    assert (is_Some (ds !! i)) as [item Hitem].
    { apply lookup_lt_is_Some. rewrite <- Hq. eapply lookup_lt_Some; eassumption. }
    destruct (Hrows i item Hitem) as (s1 & s2 & sc & -> & Hqi & _).
    rewrite Hi in Hqi. inversion Hqi; subst q. simpl.
    constructor; [|constructor].
    rewrite Forall_lookup in Hall. specialize (Hall i _ Hitem sc eq_refl).
    unfold likert_score in Hall.
    apply andb_true_iff in Hall as [Hall H5]. apply andb_true_iff in Hall as [Hv H0].
    destruct (div5_range sc Hv H0 H5) as [Hlo Hhi].
    unfold unit_score. apply andb_true_iff. split; assumption.
  - intros ds [qs c] H. apply squad_loop_inv in H as (seen & _ & Hlen & Hrows).
    unfold unit_scores. simpl. apply Forall_lookup. intros i q Hi.
    assert (is_Some (ds !! i)) as [item Hitem].
    { apply lookup_lt_is_Some. rewrite <- Hlen. eapply lookup_lt_Some; eassumption. }
    destruct (Hrows i item Hitem) as (ctx & qu & doc_id & _ & _ & _ & Hqi).
    rewrite Hi in Hqi. inversion Hqi; subst q. simpl.
    constructor; [exact unit_score_one|constructor].
  - intros ds [qs c] H. apply quora_loop_inv in H as (seen & _ & _ & _ & Hqs).
    unfold unit_scores. simpl. apply Forall_forall. intros q Hq.
    apply Hqs in Hq as (i & item & a & q1 & q2 & r & v & _ & _ & _ & _ & _ & ->).
    simpl. constructor; [exact unit_score_one|constructor].
  - intros ds [qs c] H. apply nfcorpus_loop_inv in H as (seen & _ & _ & _ & _ & Hqs).
    unfold unit_scores. simpl. apply Forall_forall. intros q Hq.
    apply Hqs in Hq as (i & item & a & cid & _ & _ & _ & ->).
    simpl. constructor; [exact unit_score_one|constructor].
Qed.

Lemma scores_in_unit_range_witness :
  unit_scores sts17_example_batch /\
  unit_scores squad_example_batch /\
  (exists b, quora_loop quora_example = Ok b /\ unit_scores b) /\
  unit_scores nfcorpus_example_batch.
Proof.
  destruct scores_in_unit_range as (_ & Hsts & Hsquad & Hquora & Hnf).
  split; [|split; [|split]].
  - apply (Hsts sts17_example).
    + repeat constructor; intros s [= <-]; vm_compute; reflexivity.
    + vm_compute. reflexivity.
  - apply (Hsquad squad_example). vm_compute. reflexivity.
  - assert (H : exists b, quora_loop quora_example = Ok b)
      by (eexists; vm_compute; reflexivity).
    destruct H as [b H]. exists b. split; [exact H|].
    exact (Hquora quora_example b H).
  - apply (Hnf nfcorpus_example). vm_compute. reflexivity.
Defined.

(** ** The files of an adapter *)

Lemma fetch_normalise_write_effect {X} w (hub : result (list X)) loop dir qpath cpath :
  (forall dataset b, loop dataset = Ok b -> output_batch b) ->
  (exists r, r <> Ok true /\
     forall fs, fetch_normalise_write w hub loop dir qpath cpath fs = (r, fs)) \/
  (exists r qs, r <> Ok true /\
     forall fs, fetch_normalise_write w hub loop dir qpath cpath fs
                = (r, <[qpath := QueryLines qs]> fs)) \/
  (exists b, output_batch b /\
     forall fs, fetch_normalise_write w hub loop dir qpath cpath fs
                = (Ok true, <[cpath := DocumentLines b.2]> (<[qpath := QueryLines b.1]> fs))).
Proof.
  intros Hout.
  assert (Hf : @Ok bool false <> Ok true) by discriminate.
  destruct hub as [ds|e].
  2:{ left. exists (Ok false). split; [exact Hf|]. intros fs.
      rewrite fetch_normalise_write_run. reflexivity. }
  destruct (loop ds) as [[qs c]|e] eqn:Hloop.
  2:{ left. exists (Ok false). split; [exact Hf|]. intros fs.
      rewrite fetch_normalise_write_run, Hloop. reflexivity. }
  destruct (mkdir_ok w dir) eqn:Hm.
  2:{ left. exists (Ok false). split; [exact Hf|]. intros fs.
      rewrite fetch_normalise_write_run, Hloop, Hm. reflexivity. }
  destruct (write_ok w qpath) eqn:Hq.
  2:{ left. exists (Ok false). split; [exact Hf|]. intros fs.
      rewrite fetch_normalise_write_run, Hloop, Hm, Hq. reflexivity. }
  destruct (write_ok w cpath) eqn:Hc.
  - right. right. exists (qs, c). split; [eapply Hout; exact Hloop|]. intros fs.
    rewrite fetch_normalise_write_run, Hloop, Hm, Hq, Hc. reflexivity.
  - right. left. exists (Ok false), qs. split; [exact Hf|]. intros fs.
    rewrite fetch_normalise_write_run, Hloop, Hm, Hq, Hc. reflexivity.
Qed.

(** The outcome of an adapter, and what it writes, do not depend on the
    files that exist. *)
Lemma run_adapter_effect a w :
  (exists r, r <> Ok true /\ forall fs, run_adapter a w fs = (r, fs)) \/
  (exists r qs, r <> Ok true /\
     forall fs, run_adapter a w fs = (r, <[queries_path a := QueryLines qs]> fs)) \/
  (exists b, output_batch b /\
     forall fs, run_adapter a w fs
                = (Ok true, <[corpus_path a := DocumentLines b.2]>
                              (<[queries_path a := QueryLines b.1]> fs))).
Proof.
  destruct a; simpl.
  - destruct (mkdir_ok w "datasets/sample") eqn:Hm.
    2:{ left. eexists. split; [|intros fs; rewrite create_sample_dataset_run, Hm; reflexivity].
        discriminate. }
    destruct (write_ok w "datasets/sample/queries.jsonl") eqn:Hq.
    2:{ left. eexists. split;
          [|intros fs; rewrite create_sample_dataset_run, Hm, Hq; reflexivity].
        discriminate. }
    destruct (write_ok w "datasets/sample/corpus.jsonl") eqn:Hc.
    + right. right. exists sample_batch. split; [constructor|].
      intros fs. rewrite create_sample_dataset_run, Hm, Hq, Hc. reflexivity.
    + right. left. eexists _, sample_queries. split;
        [|intros fs; rewrite create_sample_dataset_run, Hm, Hq, Hc; reflexivity].
      discriminate.
  - rewrite download_mteb_sts17_shape. apply fetch_normalise_write_effect. apply out_sts17.
  - rewrite download_squad_sample_shape. apply fetch_normalise_write_effect. apply out_squad.
  - rewrite download_quora_sample_shape. apply fetch_normalise_write_effect. apply out_quora.
  - rewrite download_nfcorpus_sample_shape. apply fetch_normalise_write_effect.
    apply out_nfcorpus.
Qed.

Lemma adapter_paths_distinct a a' :
  queries_path a <> corpus_path a' /\
  (a <> a' -> queries_path a <> queries_path a' /\ corpus_path a <> corpus_path a').
Proof. destruct a, a'; split; try discriminate; intros H; try (split; discriminate); congruence. Qed.

Lemma run_adapter_frame a w fs path :
  path <> queries_path a -> path <> corpus_path a ->
  (run_adapter a w fs).2 !! path = fs !! path.
Proof.
  intros Hq Hc.
  destruct (run_adapter_effect a w) as [(r & _ & H)|[(r & qs & _ & H)|(b & _ & H)]];
    rewrite H; simpl.
  - reflexivity.
  - apply lookup_insert_ne. congruence.
  - rewrite !lookup_insert_ne by congruence. reflexivity.
Qed.

(** An adapter changes no file but its own two. *)
Theorem adapter_frame a w fs path :
  path <> queries_path a -> path <> corpus_path a ->
  (run_adapter a w fs).2 !! path = fs !! path.
Proof. apply run_adapter_frame. Qed.

Lemma adapter_frame_witness :
  (run_adapter adapter_squad w_ok fs_notes).2 !! "notes.txt" = fs_notes !! "notes.txt".
Proof.
  apply (adapter_frame adapter_squad w_ok fs_notes "notes.txt"); discriminate.
Defined.

(** Running an adapter a second time gives the same result and leaves
    the files as the first run left them. *)
Theorem adapter_idempotent a w fs :
  run_adapter a w (run_adapter a w fs).2 = run_adapter a w fs.
Proof.
  pose proof (adapter_paths_distinct a a) as [Hne _].
  destruct (run_adapter_effect a w) as [(r & _ & H)|[(r & qs & _ & H)|(b & _ & H)]];
    rewrite !H; simpl.
  - reflexivity.
  - rewrite insert_insert_eq. reflexivity.
  - f_equal. apply map_eq. intros k. rewrite !lookup_insert.
    repeat case_decide; congruence.
Qed.










(** ** The files of the script *)

(** The files [main] leaves, adapter after adapter; it stops at the
    first exception. *)
Lemma main_files w fs :
  exists fs1 fs2 fs3 fs4 fs5,
    fs1 = (run_adapter adapter_sample w fs).2 /\
    fs2 = (run_adapter adapter_sts17 w fs1).2 /\
    fs3 = (run_adapter adapter_squad w fs2).2 /\
    fs4 = (run_adapter adapter_quora w fs3).2 /\
    fs5 = (run_adapter adapter_nfcorpus w fs4).2 /\
    ((main w fs).2 = fs5 \/ (main w fs).2 = fs1) /\
    ((main w fs).1 = Ok true ->
     (main w fs).2 = fs5 /\
     run_adapter adapter_sample w fs = (Ok true, fs1) /\
     run_adapter adapter_sts17 w fs1 = (Ok true, fs2) /\
     run_adapter adapter_squad w fs2 = (Ok true, fs3) /\
     run_adapter adapter_quora w fs3 = (Ok true, fs4) /\
     run_adapter adapter_nfcorpus w fs4 = (Ok true, fs5)).
Proof.
  eexists _, _, _, _, _. do 5 (split; [reflexivity|]).
  rewrite main_run. simpl run_adapter.
  destruct (create_sample_dataset w fs) as [[r1|e] fs1]; simpl;
    [|split; [right; reflexivity|discriminate]].
  destruct (downloads_return w fs1) as ((r2 & fs2 & H2) & _). rewrite H2. simpl.
  destruct (downloads_return w fs2) as (_ & (r3 & fs3 & H3) & _). rewrite H3. simpl.
  destruct (downloads_return w fs3) as (_ & _ & (r4 & fs4 & H4) & _). rewrite H4. simpl.
  destruct (downloads_return w fs4) as (_ & _ & _ & (r5 & fs5 & H5)). rewrite H5. simpl.
  split; [left; reflexivity|].
  intros H. inversion H as [Hr].
  destruct r1, r2, r3, r4, r5; try discriminate. repeat split.
Qed.

(** The script changes no file outside the ten it writes. *)
Theorem script_frame w fs path :
  (forall a, path <> queries_path a /\ path <> corpus_path a) ->
  (script w fs).2 !! path = fs !! path.
Proof.
  intros Hpath.
  assert (Hstep : forall a fs0, (run_adapter a w fs0).2 !! path = fs0 !! path).
  { intros a fs0. apply run_adapter_frame; apply Hpath. }
  assert (Hmain : (main w fs).2 !! path = fs !! path).
  { destruct (main_files w fs) as (fs1 & fs2 & fs3 & fs4 & fs5 & -> & -> & -> & -> & -> & Hor & _).
    destruct Hor as [-> | ->]; rewrite ?Hstep; reflexivity. }
  unfold script. destruct (datasets_installed w); [|reflexivity].
  destruct (main w fs) as [[r|e] fs']; exact Hmain.
Qed.

Lemma script_frame_witness :
  (script w_ok fs_notes).2 !! "notes.txt" = fs_notes !! "notes.txt".
Proof.
  apply (script_frame w_ok fs_notes "notes.txt").
  intros []; split; discriminate.
Defined.




(** ** When the loops end normally *)

Lemma for_enumerate_rows_Ok {X St} (body : nat -> X -> St -> result St)
    (complete : X -> bool) xs i s s' :
  (forall x, complete x = false -> forall j t, exists e, body j x t = Raise e) ->
  for_enumerate body i xs s = Ok s' ->
  Forall (fun x => complete x = true) xs.
Proof.
  intros Hraise Hrun. apply Forall_forall. intros x Hin.
  destruct (complete x) eqn:Hc; [reflexivity|].
  destruct (for_enumerate_row_raises body xs x Hin (Hraise x Hc) i s) as [e He].
  congruence.
Qed.

Lemma squad_run_total dataset :
  Forall (fun item => squad_complete item = true) dataset ->
  squad_titled dataset ->
  exists st, for_enumerate squad_body 0 dataset ([], [], ∅) = Ok st.
Proof.
  induction dataset as [|x pre IH] using rev_ind; intros Hall Htitled.
  - simpl. eauto.
  - apply Forall_app in Hall as [Hpre Hx]. rewrite Forall_singleton in Hx.
    destruct IH as [[[qs c] sn] Hrun]; [exact Hpre| |].
    { intros i item text Hi Hc Hfirst.
      apply (Htitled i item text); [apply lookup_app_l_Some; exact Hi|exact Hc|].
      intros j earlier Hj Hlook. apply (Hfirst j earlier Hj).
      rewrite lookup_app_l in Hlook; [exact Hlook|].
      apply lookup_lt_Some in Hi. lia. }
    rewrite for_enumerate_app, Hrun. simpl.
    destruct (squad_run_corpus_inv pre _ Hrun) as (Hd & Hc & _).
    unfold squad_complete in Hx. unfold squad_body.
    destruct x as [[ctx|] t [q|]]; simpl in Hx; try discriminate. simpl.
    destruct (sn !! ctx) as [doc_id|] eqn:Hseen; simpl; [eauto|].
    destruct (Htitled (length pre)
                {| SQuAD.context := Some ctx; SQuAD.title := t; SQuAD.question := Some q |}
                ctx) as [title Ht].
    + apply list_lookup_middle. reflexivity.
    + reflexivity.
    + intros j earlier Hj Hlook Hearlier.
      rewrite lookup_app_l in Hlook by exact Hj.
      assert (ctx ∈ content <$> c) as Hin.
      { rewrite Hc. apply first_occurrences_elem, squad_contexts_elem. eauto. }
      apply (dedup_inv_seen_iff _ _ _ _ Hd) in Hin as [v Hv]. congruence.
    + simpl in Ht. subst t. simpl. eauto.
Qed.

(** When the loops end normally: the STS-17, Quora and NFCorpus loops
    exactly when every row has the columns read on each turn; the SQuAD
    loop exactly when every row has [context] and [question] and the
    first row of each context has a [title] (a missing title is not
    noticed on a row whose context was seen before). *)
Theorem loops_succeed_iff :
  (forall dataset,
     (exists b, sts17_loop dataset = Ok b) <->
     Forall (fun item => sts17_complete item = true) dataset) /\
  (forall dataset,
     (exists b, squad_loop dataset = Ok b) <->
     Forall (fun item => squad_complete item = true) dataset /\ squad_titled dataset) /\
  (forall dataset,
     (exists b, quora_loop dataset = Ok b) <->
     Forall (fun item => quora_complete item = true) dataset) /\
  (forall dataset,
     (exists b, nfcorpus_loop dataset = Ok b) <->
     Forall (fun item => bool_decide (is_Some (NFCorpus.query item)) = true) dataset).
Proof.
  split; [|split; [|split]]; intros ds; split.
  - intros [b H]. unfold sts17_loop in H.
    eapply for_enumerate_rows_Ok; [exact sts17_incomplete_raises|exact H].
  - apply sts17_loop_total.
  - intros [b H]. split.
    + unfold squad_loop in H.
      destruct (for_enumerate squad_body 0 ds ([], [], ∅)) as [st|e] eqn:Hrun; [|discriminate].
      eapply for_enumerate_rows_Ok; [exact squad_incomplete_raises|exact Hrun].
    + intros i item text Hi Hc Hfirst.
      destruct (SQuAD.title item) as [t|] eqn:Ht; [eauto|exfalso].
      destruct (squad_new_context_needs_title (take i ds) item (drop (S i) ds) text Hc Ht)
        as [e He].
      * intros earlier Hin Hearlier. apply list_elem_of_lookup in Hin as [j Hj].
        apply lookup_take_Some in Hj as [Hj Hlt]. exact (Hfirst j earlier Hlt Hj Hearlier).
      * rewrite take_drop_middle in He by exact Hi. congruence.
  - intros [Hall Htitled]. unfold squad_loop.
    destruct (squad_run_total ds Hall Htitled) as [[[qs c] sn] Hrun].
    rewrite Hrun. simpl. eauto.
  - intros [b H]. unfold quora_loop in H.
    destruct (for_enumerate quora_body 0 ds ([], [], ∅)) as [st|e] eqn:Hrun; [|discriminate].
    eapply for_enumerate_rows_Ok; [exact quora_incomplete_raises|exact Hrun].
  - apply quora_loop_total.
  - intros [b H]. unfold nfcorpus_loop in H.
    destruct (for_enumerate nfcorpus_body 0 ds ([], [], ∅)) as [st|e] eqn:Hrun; [|discriminate].
    eapply (for_enumerate_rows_Ok nfcorpus_body
              (fun item => bool_decide (is_Some (NFCorpus.query item)))); [|exact Hrun].
    intros x Hx. apply nfcorpus_incomplete_raises.
    apply bool_decide_eq_false in Hx. destruct (NFCorpus.query x); [|reflexivity].
    destruct Hx. eauto.
  - intros Hall. apply nfcorpus_loop_total.
    eapply Forall_impl; [exact Hall|]. intros x Hx. apply bool_decide_eq_true in Hx. exact Hx.
Qed.

Lemma loops_succeed_iff_witness :
  (exists b, squad_loop squad_untitled_repeat = Ok b) /\
  ~ (exists b, sts17_loop sts17_broken = Ok b).
Proof.
  destruct loops_succeed_iff as (Hsts & Hsquad & _).
  split.
  - apply Hsquad. split.
    + repeat constructor.
    + intros i item c Hi Hc Hfirst.
      destruct i as [|[|i]]; simpl in Hi; try discriminate.
      * injection Hi as <-. eexists. reflexivity.
      * injection Hi as <-. injection Hc as <-.
        exfalso. apply (Hfirst 0 _ ltac:(lia) eq_refl). reflexivity.
  - intros H. apply Hsts in H.
    apply Forall_cons in H as [_ H]. apply Forall_cons in H as [H _].
    discriminate H.
Defined.
